(** * Spotify songs analyzer: the genre normaliser and the top-N ranker

    A shallow embedding of the three analysis scripts
    [Top5.py], [24COP504(1)/Artist.py] and [24COP504(1)/Genres.py], and the
    properties of their data transformations.

    Conventions of the embedding.
    - Python [int] is [Z]; a [float64] value is an exact rational [Qc], and
      [None : option Qc] stands for NaN (the SQL NULL of a numeric column).
      Rounding of binary floating point is not modelled.
    - A text cell is [option string], [None] being the SQL NULL.
    - A raised Python exception is the [Raise] branch of [result].
    - The SQLite database is outside the scripts: the frame a query returns
      is an argument of the embedded pipeline.
    - Objects that the scripts mutate (data frames) live in a heap and are
      passed around by location, as Python passes references. *)

From Stdlib Require Import ZArith QArith Qcanon Ascii String Lia.
From stdpp Require Import base numbers strings pretty functions sorting option list.

Local Open Scope Z_scope.
Local Open Scope string_scope.

(** ** Python values and exceptions *)

Module Py.

Inductive exn :=
| KeyError (key : string)
| AttributeError (msg : string)
| TypeError (msg : string).

Inductive result (A : Type) :=
| Ok (a : A)
| Raise (e : exn).
Arguments Ok {A} a.
Arguments Raise {A} e.

Global Instance exn_eq_dec : EqDecision exn.
Proof. solve_decision. Defined.

Global Instance result_eq_dec {A} `{EqDecision A} : EqDecision (result A).
Proof. solve_decision. Defined.

Definition is_ok {A} (r : result A) : bool :=
  match r with Ok _ => true | Raise _ => false end.

(** [s.split(sep)] for a non-empty separator: the pieces between the
    non-overlapping occurrences of [sep], scanned from the left.  [skip]
    counts the characters of a matched separator still to be consumed and
    [cur] is the piece read so far. *)
Fixpoint split_go (sep : string) (skip : nat) (cur s : string) : list string :=
  match s with
  | EmptyString => [cur]
  | String c s' =>
      match skip with
      | S k => split_go sep k cur s'
      | O =>
          if String.prefix sep s
          then cur :: split_go sep (String.length sep - 1) EmptyString s'
          else split_go sep 0 (cur ++ String c EmptyString) s'
      end
  end.

Definition split (s sep : string) : list string := split_go sep 0 EmptyString s.

(** [s.strip()] restricted to the blank character: what a label would be
    after trimming. The scripts never call it. *)
Fixpoint lstrip (s : string) : string :=
  match s with
  | String " "%char s' => lstrip s'
  | _ => s
  end.

Definition strip (s : string) : string :=
  String.rev (lstrip (String.rev (lstrip s))).

End Py.
Export Py.

(** ** The fragment of pandas the scripts use *)

Module Pandas.

(** A column has one dtype. *)
Inductive Series :=
| ObjectSeries (l : list (option string))
| Int64Series (l : list Z)
| Float64Series (l : list (option Qc)).

Definition series_len (s : Series) : nat :=
  match s with
  | ObjectSeries l => length l
  | Int64Series l => length l
  | Float64Series l => length l
  end.

(** A frame is its ordered, named columns; the row labels play no role in
    the scripts and are left out. *)
Definition DataFrame := list (string * Series).

Fixpoint getitem (df : DataFrame) (c : string) : result Series :=
  match df with
  | [] => Raise (KeyError c)
  | (c', s) :: df' => if String.eqb c' c then Ok s else getitem df' c
  end.

Definition has_column (df : DataFrame) (c : string) : bool := is_ok (getitem df c).

(** [df[c] = s]: an existing column is replaced where it stands, a new one
    is appended. *)
Fixpoint setitem (df : DataFrame) (c : string) (s : Series) : DataFrame :=
  match df with
  | [] => [(c, s)]
  | (c', s') :: df' =>
      if String.eqb c' c then (c', s) :: df' else (c', s') :: setitem df' c s
  end.

Definition nrows (df : DataFrame) : nat :=
  match df with
  | [] => 0%nat
  | (_, s) :: _ => series_len s
  end.

(** [df.empty]: some axis has length 0. *)
Definition empty (df : DataFrame) : bool :=
  match df with
  | [] => true
  | _ => Nat.eqb (nrows df) 0
  end.

(** [series * w] for a float [w], cell by cell. A text or null cell cannot
    be multiplied; an object column without rows has no cell to fail on. *)
Definition mul_scalar (s : Series) (w : Qc) : result (list (option Qc)) :=
  match s with
  | Int64Series l => Ok (map (fun z => Some (Qc_of_Z z * w)%Qc) l)
  | Float64Series l => Ok (map (option_map (fun x => (x * w)%Qc)) l)
  | ObjectSeries [] => Ok []
  | ObjectSeries (_ :: _) =>
      Raise (TypeError "can't multiply sequence by non-int of type 'float'")
  end.

Definition add_cell (x y : option Qc) : option Qc :=
  match x, y with
  | Some a, Some b => Some (a + b)%Qc
  | _, _ => None
  end.

(** [a + b] of two float columns over the same row labels. *)
Definition add_series (a b : list (option Qc)) : list (option Qc) :=
  zip_with add_cell a b.

(** Numeric view of a column, as the reducers see it. *)
Definition to_numeric (s : Series) : result (list (option Qc)) :=
  match s with
  | Int64Series l => Ok (map (fun z => Some (Qc_of_Z z)) l)
  | Float64Series l => Ok l
  | ObjectSeries [] => Ok []
  | ObjectSeries (_ :: _) => Raise (TypeError "Could not convert string to numeric")
  end.

Definition Qc_sum (l : list Qc) : Qc := foldr Qcplus 0%Qc l.

(** The values that are not NaN. *)
Definition dropna (l : list (option Qc)) : list Qc := omap id l.

(** [mean] skips NaN and is NaN on nothing. *)
Definition mean (l : list (option Qc)) : option Qc :=
  match dropna l with
  | [] => None
  | v :: vs => Some (Qc_sum (v :: vs) / Qc_of_Z (Z.of_nat (length (v :: vs))))%Qc
  end.

(** Group keys. *)
Inductive key :=
| KStr (s : string)
| KInt (z : Z)
| KFloat (q : Qc).

Global Instance key_eq_dec : EqDecision key.
Proof. solve_decision. Defined.

Definition keys_of (s : Series) : list (option key) :=
  match s with
  | ObjectSeries l => map (option_map KStr) l
  | Int64Series l => map (fun z => Some (KInt z)) l
  | Float64Series l => map (option_map KFloat) l
  end.

(** The order in which [groupby] lists its groups. *)
Definition key_leb (a b : key) : bool :=
  match a, b with
  | KStr s, KStr t => String.leb s t
  | KInt x, KInt y => Z.leb x y
  | KFloat x, KFloat y => bool_decide (x <= y)%Qc
  | KStr _, _ => false
  | _, KStr _ => true
  | KInt _, KFloat _ => true
  | KFloat _, KInt _ => false
  end.

Definition key_le (a b : key) : Prop := key_leb a b = true.

Global Instance key_le_dec : RelDecision key_le.
Proof. intros a b. unfold key_le. apply _. Defined.

(** [drop_duplicates]: the first occurrence of every value is kept. *)
Fixpoint drop_duplicates_go {A} `{EqDecision A} (seen l : list A) : list A :=
  match l with
  | [] => []
  | x :: l' =>
      if bool_decide (x ∈ seen) then drop_duplicates_go seen l'
      else x :: drop_duplicates_go (x :: seen) l'
  end.

Definition drop_duplicates {A} `{EqDecision A} (l : list A) : list A :=
  drop_duplicates_go [] l.

(** [groupby], generic in the type of the keys and in their order. *)
Section groupby.
Context {K : Type} `{EqDecision K} (le : relation K) `{!RelDecision le}.

(** The group keys of [groupby(..., sort=True, dropna=True)]: rows without
    key are dropped, the keys are listed once each, in increasing order. *)
Definition group_keys (ks : list (option K)) : list K :=
  merge_sort le (drop_duplicates (omap id ks)).

(** The values of the rows whose key is [k], in row order. *)
Definition group_values {V} (k : K) (ks : list (option K)) (vs : list V) : list V :=
  (filter (fun p => p.1 = Some k) (zip ks vs)).*2.

(** [groupby(keys)[values].agg(f)]: one entry per group. *)
Definition groupby_agg {V W} (f : list V -> W)
    (ks : list (option K)) (vs : list V) : list (K * W) :=
  map (fun k => (k, f (group_values k ks vs))) (group_keys ks).

Fixpoint assoc {W} (k : K) (tbl : list (K * W)) : option W :=
  match tbl with
  | [] => None
  | (k', w) :: tbl' => if bool_decide (k' = k) then Some w else assoc k tbl'
  end.

(** [groupby(keys)[values].transform('mean')]: every row receives the mean
    of its group; a row without key receives NaN. *)
Definition transform_mean (ks : list (option K)) (vs : list (option Qc))
  : list (option Qc) :=
  let tbl := groupby_agg mean ks vs in
  map (fun ok => k ← ok; mjoin (assoc k tbl)) ks.

End groupby.

(** [head(n)]: the first [n] rows, or all but the last [-n] for negative [n]. *)
Definition head {A} (n : Z) (l : list A) : list A :=
  if Z.leb 0 n then take (Z.to_nat n) l
  else take (length l - Z.to_nat (- n)) l.

(** [values.isin(sel)] as a row mask. *)
Definition isin {A} `{EqDecision A} (vs sel : list A) : list bool :=
  map (fun v => bool_decide (v ∈ sel)) vs.

(** Rows picked by a boolean mask. *)
Definition mask_list {A} (m : list bool) (l : list A) : list A :=
  (filter (fun p => p.1 = true) (zip m l)).*2.

Definition mask_series (m : list bool) (s : Series) : Series :=
  match s with
  | ObjectSeries l => ObjectSeries (mask_list m l)
  | Int64Series l => Int64Series (mask_list m l)
  | Float64Series l => Float64Series (mask_list m l)
  end.

(** [df[mask]]: a new frame with the same columns. *)
Definition mask_frame (m : list bool) (df : DataFrame) : DataFrame :=
  map (fun cs => (cs.1, mask_series m cs.2)) df.

(** Rows re-ordered by position, [take]. *)
Definition take_rows {A} (order : list nat) (l : list A) : list A :=
  omap (fun i => l !! i) order.

(** *** Sorting by a float column, descending

    [sort_values(by=c, ascending=False)] leaves the choice of the
    permutation to the sorting routine ([kind='quicksort'] by default, which
    is not stable). The routine is an argument: it maps the key column to
    the row positions in their new order. What runs by default is modelled
    in [Numpy] below. *)

(** [a] may stand before [b]: larger first, NaN last. *)
Definition desc_ge (a b : option Qc) : Prop :=
  match a, b with
  | _, None => True
  | None, Some _ => False
  | Some x, Some y => (y <= x)%Qc
  end.

Definition key_at (ks : list (option Qc)) (i : nat) : option Qc := mjoin (ks !! i).

(** What every sorting routine guarantees on the key column [ks]. *)
Definition sorts_descending (argsort : list (option Qc) -> list nat)
    (ks : list (option Qc)) : Prop :=
  argsort ks ≡ₚ seq 0 (length ks) ∧
  StronglySorted (fun i j => desc_ge (key_at ks i) (key_at ks j)) (argsort ks).

(** What a stable routine guarantees in addition: rows with equal keys keep
    their input order. *)
Definition sorts_stably (argsort : list (option Qc) -> list nat)
    (ks : list (option Qc)) : Prop :=
  StronglySorted (fun i j => key_at ks i = key_at ks j -> (i < j)%nat) (argsort ks).

(** Two routines that meet it, for the statements that need one. The
    first is an insertion sort of the row positions: a row is placed before
    the rows of equal key that follow it. *)
Definition goes_before (a b : option Qc) : bool :=
  match a, b with
  | _, None => true
  | None, Some _ => false
  | Some x, Some y => bool_decide (y <= x)%Qc
  end.

Fixpoint insert_row (ks : list (option Qc)) (i : nat) (l : list nat) : list nat :=
  match l with
  | [] => [i]
  | j :: l' =>
      if goes_before (key_at ks i) (key_at ks j) then i :: j :: l'
      else j :: insert_row ks i l'
  end.

Definition insertion_argsort (ks : list (option Qc)) : list nat :=
  foldr (insert_row ks) [] (seq 0 (length ks)).

Definition stable_argsort := insertion_argsort.

(** The second, a merge sort of the row positions (what
    [kind='stable'] selects): a row stands before another if its key is
    larger, or equal with a smaller position. *)
Definition row_leb (ks : list (option Qc)) (i j : nat) : bool :=
  goes_before (key_at ks i) (key_at ks j)
  && (negb (goes_before (key_at ks j) (key_at ks i)) || (i <=? j)%nat).

Definition merge_argsort (ks : list (option Qc)) : list nat :=
  merge_sort (fun i j => Is_true (row_leb ks i j)) (seq 0 (length ks)).

End Pandas.
Export Pandas.

(** ** What [sort_values] runs by default

    [data.sort_values(by='avg_rank_value', ascending=False)] asks for no
    [kind], so pandas' [nargsort] hands the column to numpy's [argsort] of
    kind ['quicksort']. Its portable kernel, [aquicksort] of
    [npysort/quicksort.cpp], is an introsort on the index array [tosort]:
    median-of-three partitioning with an explicit stack while a range has
    more than [SMALL_QUICKSORT] elements, insertion sort below that. Builds
    of numpy that dispatch to a vectorised kernel order equal keys in their
    own way; none promises to keep them in input order. *)

Module Numpy.

Definition SMALL_QUICKSORT : nat := 16.

(** A range [pl..pr] of [tosort] pushed on the stack, with the depth left
    for it. *)
Inductive partition_frame := Frame (pl pr : nat) (cdepth : Z).

Section aquicksort.

(** The values [v] (no NaN among them: [nargsort] has set those apart). *)
Variable v : list Qc.

(** The heapsort of the range [pl..pr] of [tosort], which the kernel falls
    back to when it has partitioned more than [2 * npy_get_msb num] times
    in a row. *)
Variable aheapsort : list nat -> nat -> nat -> list nat.

(** [*p] and [v[*p]]. *)
Definition deref (tosort : list nat) (p : nat) : nat := default 0%nat (tosort !! p).

Definition value (tosort : list nat) (p : nat) : Qc :=
  default (Q2Qc 0) (v !! deref tosort p).

Definition less (x y : Qc) : bool := bool_decide (x < y)%Qc.

Definition INTP_SWAP (tosort : list nat) (p q : nat) : list nat :=
  <[p := deref tosort q]> (<[q := deref tosort p]> tosort).

(** [do { ++pi; } while (less(v[*pi], vp));] The fuel bounds the scan by
    the length of the array; the median that was moved to [pr - 1] stops
    it before. *)
Fixpoint scan_up (fuel : nat) (tosort : list nat) (vp : Qc) (pi : nat) : nat :=
  match fuel with
  | O => pi
  | S fuel' =>
      if less (value tosort (S pi)) vp then scan_up fuel' tosort vp (S pi) else S pi
  end.

(** [do { --pj; } while (less(vp, v[*pj]));] *)
Fixpoint scan_down (fuel : nat) (tosort : list nat) (vp : Qc) (pj : nat) : nat :=
  match fuel with
  | O => pj
  | S fuel' =>
      if less vp (value tosort (pj - 1)) then scan_down fuel' tosort vp (pj - 1)
      else (pj - 1)%nat
  end.

(** The loop [for (;;)] of the partition: scan from both ends, stop when
    the scans meet, swap otherwise. Elements equal to the pivot stop both
    scans and are swapped. *)
Fixpoint exchange (fuel : nat) (tosort : list nat) (vp : Qc) (pi pj : nat)
  : list nat * nat :=
  match fuel with
  | O => (tosort, pi)
  | S fuel' =>
      let pi' := scan_up (length tosort) tosort vp pi in
      let pj' := scan_down (length tosort) tosort vp pj in
      if (pj' <=? pi')%nat then (tosort, pi')
      else exchange fuel' (INTP_SWAP tosort pi' pj') vp pi' pj'
  end.

(** One partition of [pl..pr]: the median of the first, middle and last
    element goes to [pr - 1], the range is partitioned around it, and it is
    put in its place [pi]. *)
Definition partition (tosort : list nat) (pl pr : nat) : list nat * nat :=
  let pm := (pl + (pr - pl) / 2)%nat in
  let t1 := if less (value tosort pm) (value tosort pl)
            then INTP_SWAP tosort pm pl else tosort in
  let t2 := if less (value t1 pr) (value t1 pm) then INTP_SWAP t1 pr pm else t1 in
  let t3 := if less (value t2 pm) (value t2 pl) then INTP_SWAP t2 pm pl else t2 in
  let vp := value t3 pm in
  let t4 := INTP_SWAP t3 pm (pr - 1) in
  let (t5, pi) := exchange (length t4) t4 vp pl (pr - 1) in
  (INTP_SWAP t5 pi (pr - 1), pi).

(** [while ((pr - pl) > SMALL_QUICKSORT)]: partition, push the larger part
    on the stack and go on with the smaller. *)
Fixpoint partitions (fuel : nat) (tosort : list nat) (pl pr : nat) (cdepth : Z)
    (stack : list partition_frame) : list nat * nat * nat * list partition_frame :=
  match fuel with
  | O => (tosort, pl, pr, stack)
  | S fuel' =>
      if (SMALL_QUICKSORT <? pr - pl)%nat then
        let (t, pi) := partition tosort pl pr in
        if (pi - pl <? pr - pi)%nat then
          partitions fuel' t pl (pi - 1) (cdepth - 1)
                     (Frame (pi + 1) pr (cdepth - 1) :: stack)
        else
          partitions fuel' t (pi + 1) pr (cdepth - 1)
                     (Frame pl (pi - 1) (cdepth - 1) :: stack)
      else (tosort, pl, pr, stack)
  end.

(** The insertion sort of a small range: [*pj-- = *pk--] while the element
    before is larger, so equal elements keep their order. *)
Fixpoint shift (fuel : nat) (tosort : list nat) (pl : nat) (vp : Qc) (pj : nat)
  : list nat * nat :=
  match fuel with
  | O => (tosort, pj)
  | S fuel' =>
      if (pl <? pj)%nat && less vp (value tosort (pj - 1)) then
        shift fuel' (<[pj := deref tosort (pj - 1)]> tosort) pl vp (pj - 1)
      else (tosort, pj)
  end.

Definition insert (pl : nat) (tosort : list nat) (pi : nat) : list nat :=
  let vi := deref tosort pi in
  let vp := default (Q2Qc 0) (v !! vi) in
  let (t, pj) := shift pi tosort pl vp pi in
  <[pj := vi]> t.

Definition insertion_sort (tosort : list nat) (pl pr : nat) : list nat :=
  foldl (insert pl) tosort (seq (pl + 1) (pr - pl)).

(** The outer loop [while (1)]: sort the current range, then pop the next
    one off the stack until the stack is empty. *)
Fixpoint sort_loop (fuel : nat) (tosort : list nat) (pl pr : nat) (cdepth : Z)
    (stack : list partition_frame) : list nat :=
  match fuel with
  | O => tosort
  | S fuel' =>
      let (t, stack') :=
        if (cdepth <? 0)%Z then (aheapsort tosort pl pr, stack)
        else
          let '(t, pl', pr', stack') :=
            partitions (length tosort) tosort pl pr cdepth stack in
          (insertion_sort t pl' pr', stack') in
      match stack' with
      | [] => t
      | Frame pl' pr' cdepth' :: stack'' => sort_loop fuel' t pl' pr' cdepth' stack''
      end
  end.

(** The position of the highest bit set. *)
Definition npy_get_msb (n : nat) : Z := Z.log2 (Z.of_nat n).

(** [argsort] starts from the positions in their order. Every turn of the
    outer loop finishes a range that is not empty, so [num + 1] turns are
    enough. *)
Definition aquicksort : list nat :=
  let num := length v in
  sort_loop (S num) (seq 0 num) 0 (num - 1) (npy_get_msb num * 2) [].

End aquicksort.

End Numpy.

(** pandas' [nargsort] with [ascending=False] and [na_position='last'], as
    [sort_values] calls it for one column: the NaN rows are set apart, the
    others are reversed, sorted in ascending order and reversed again, and
    the NaN rows are put last. *)
Definition nargsort (aheapsort : list Qc -> list nat -> nat -> nat -> list nat)
    (items : list (option Qc)) : list nat :=
  let idx := seq 0 (length items) in
  let non_nans := reverse (omap id items) in
  let non_nan_idx := reverse (filter (fun i => is_Some (key_at items i)) idx) in
  let nan_idx := filter (fun i => key_at items i = None) idx in
  let indexer := map (fun k => default 0%nat (non_nan_idx !! k))
                     (Numpy.aquicksort non_nans (aheapsort non_nans)) in
  (reverse indexer ++ nan_idx)%list.

(** ** Top5.py *)

Module Top5.

(** *** The heap of frames and the effects of the script *)

Abbreviation loc := nat (only parsing).

Inductive event :=
| Print (s : string)
| DisplayTable (data : DataFrame)
| PlotData (data : DataFrame)
| LineChart (data : DataFrame).

Record world := World {
  heap : loc -> DataFrame;
  next : loc;
  out : list event
}.

Definition M (A : Type) : Type := world -> result (A * world).

Definition ret {A} (a : A) : M A := fun w => Ok (a, w).

Definition bind {A B} (m : M A) (f : A -> M B) : M B :=
  fun w => match m w with
           | Ok (a, w') => f a w'
           | Raise e => Raise e
           end.

Notation "x <- m ;; k" := (bind m (fun x => k))
  (at level 100, m at next level, right associativity).
Notation "m ;;; k" := (bind m (fun _ => k))
  (at level 100, right associativity).

Definition lift {A} (r : result A) : M A :=
  fun w => match r with
           | Ok a => Ok (a, w)
           | Raise e => Raise e
           end.

Definition deref (l : loc) : M DataFrame := fun w => Ok (heap w l, w).

Definition store (l : loc) (df : DataFrame) : M unit :=
  fun w => Ok (tt, World (<[l:=df]> (heap w)) (next w) (out w)).

Definition alloc (df : DataFrame) : M loc :=
  fun w => Ok (next w, World (<[next w:=df]> (heap w)) (S (next w)) (out w)).

Definition emit (e : event) : M unit :=
  fun w => Ok (tt, World (heap w) (next w) (out w ++ [e])%list).

(** *** The functions of the script *)

Definition validate_years (start_year end_year : Z) : bool :=
  if (start_year <? 1998)%Z || (end_year >? 2020)%Z || (start_year >? end_year)%Z
  then false
  else true.

(** The answer of the database to the year-range query is given by [db]. *)
Definition get_artist_data (db : Z -> Z -> DataFrame) (start_year end_year : Z) : M loc :=
  alloc (db start_year end_year).

Definition half : Qc := Q2Qc (1 # 2).

Definition calculate_rank_value (data : loc) (weight_x weight_y : Qc) : M loc :=
  df <- deref data ;;
  num_songs <- lift (getitem df "num_songs") ;;
  x <- lift (mul_scalar num_songs weight_x) ;;
  avg_popularity <- lift (getitem df "avg_popularity") ;;
  y <- lift (mul_scalar avg_popularity weight_y) ;;
  store data (setitem df "rank_value" (Float64Series (add_series x y))) ;;;
  ret data.

Section sorting.

(** The routine behind [sort_values]. *)
Variable argsort : list (option Qc) -> list nat.

(** The [ArtistName] column of
    [data.sort_values(by='avg_rank_value', ascending=False)
         .drop_duplicates('ArtistName').head(top_n)]. *)
Definition top_artist_names (names : list (option key)) (avg : list (option Qc))
    (top_n : Z) : list (option key) :=
  head top_n (drop_duplicates (take_rows (argsort avg) names)).

Definition get_top_artists (data : loc) (top_n : Z) : M loc :=
  df <- deref data ;;
  by_name <- lift (getitem df "ArtistName") ;;
  rank_value <- lift (getitem df "rank_value") ;;
  values <- lift (to_numeric rank_value) ;;
  store data (setitem df "avg_rank_value"
                (Float64Series (transform_mean key_le (keys_of by_name) values))) ;;;
  df <- deref data ;;
  avg_rank_value <- lift (getitem df "avg_rank_value") ;;
  avg <- lift (to_numeric avg_rank_value) ;;
  names <- lift (getitem df "ArtistName") ;;
  let top_artists := top_artist_names (keys_of names) avg top_n in
  alloc (mask_frame (isin (keys_of names) top_artists) df).

(** The two presentation steps are recorded as events; what they draw, and
    the ways in which drawing can fail, are not modelled. *)
Definition display_table (data : loc) : M unit :=
  df <- deref data ;;
  emit (DisplayTable df).

Definition plot_data (data : loc) : M unit :=
  df <- deref data ;;
  emit (PlotData df).

(** The function has no [return] on its last path: it answers [None] there
    as well as on the empty path. *)
Definition get_top_5_artists_by_year_range (db : Z -> Z -> DataFrame)
    (start_year end_year : Z) : M (option loc) :=
  artist_data <- get_artist_data db start_year end_year ;;
  df <- deref artist_data ;;
  if empty df then
    emit (Print ("No data found for the years " ++ pretty start_year ++ "-"
                 ++ pretty end_year ++ ".")) ;;;
    ret None
  else
    artist_data <- calculate_rank_value artist_data half half ;;
    top_artists_data <- get_top_artists artist_data 5 ;;
    display_table top_artists_data ;;;
    plot_data top_artists_data ;;;
    ret None.

Definition plot_top_5_artists_rank_values (db : Z -> Z -> DataFrame)
    (start_year end_year : Z) : M unit :=
  top_5_artists <- get_top_5_artists_by_year_range db start_year end_year ;;
  match top_5_artists with
  | None => ret tt
  | Some l =>
      df <- deref l ;;
      emit (Print (String "010"%char
                     ("Top 5 artists from " ++ pretty start_year ++ " to "
                      ++ pretty end_year ++ " (Avg Popularity by Year):"))) ;;;
      emit (DisplayTable df) ;;;
      emit (LineChart df)
  end.

End sorting.

(** The world before the script runs: nothing allocated, nothing printed. *)
Definition initial : world := World (fun _ => []) 0 [].

End Top5.

(** ** 24COP504(1)/Artist.py *)

Module Artist.

(** A row of the genre comparison, as [iterrows] yields it and as the
    dictionaries appended to [rows] hold it. *)
Record row := Row {
  Genre : option string;
  avg_popularity_artist : option Qc;
  avg_popularity_overall : option Qc
}.

Global Instance row_eq_dec : EqDecision row.
Proof. solve_decision. Defined.

(** The inner loop: one dictionary per genre of the row, the two metrics
    taken over as they are. *)
Definition append_genres (r : row) (genres : list string) (rows : list row) : list row :=
  foldl (fun rows genre =>
           (rows ++ [Row (Some genre) (avg_popularity_artist r)
                         (avg_popularity_overall r)])%list)
        rows genres.

(** The outer loop over [data.iterrows()]. A null genre has no [split]. *)
Fixpoint iterrows_loop (data : list row) (rows : list row) : result (list row) :=
  match data with
  | [] => Ok rows
  | r :: data' =>
      match Genre r with
      | None => Raise (AttributeError "'NoneType' object has no attribute 'split'")
      | Some g => iterrows_loop data' (append_genres r (split g ", ") rows)
      end
  end.

(** [df.groupby('Genre', as_index=False).mean()]. *)
Definition groupby_mean (df : list row) : list row :=
  let ks := map Genre df in
  map (fun g => Row (Some g)
                  (mean (group_values g ks (map avg_popularity_artist df)))
                  (mean (group_values g ks (map avg_popularity_overall df))))
      (group_keys String.le ks).

(** A frame built from no dictionary has no column, and grouping it by
    ['Genre'] is a [KeyError]. *)
Definition split_and_aggregate (data : list row) : result (list row) :=
  match iterrows_loop data [] with
  | Raise e => Raise e
  | Ok [] => Raise (KeyError "Genre")
  | Ok rows => Ok (groupby_mean rows)
  end.

(** *** The bar chart

    A row of [get_genre_average]. *)
Record avg_row := AvgRow {
  avg_Genre : option string;
  avg_popularity : option Qc
}.

(** A row of [merged_data]: the columns of the two frames share only the
    key, so no suffix is applied. *)
Record merged_row := MergedRow {
  left_row : row;
  right_avg_popularity : option Qc
}.

(** [pd.merge(artist_data, genre_avg, on='Genre', how='left')]: the rows of
    the left frame in their order, each once for every row of the right
    frame with the same key (null keys match each other), and once with NaN
    if there is none. *)
Definition merge_left (artist_data : list row) (genre_avg : list avg_row)
  : list merged_row :=
  flat_map (fun r =>
              match filter (fun g => avg_Genre g = Genre r) genre_avg with
              | [] => [MergedRow r None]
              | matches => map (fun g => MergedRow r (avg_popularity g)) matches
              end)
           artist_data.

(** What [plot_data] hands to [plt.bar] and [plt.xticks]: the two series of
    bar heights and the tick labels, one of each per row of [merged_data]. *)
Record bar_chart := BarChart {
  artist_bars : list (option Qc);
  overall_bars : list (option Qc);
  xticks : list (option string)
}.

Definition plot_data (artist_data : list row) (genre_avg : list avg_row) : bar_chart :=
  let merged_data := merge_left artist_data genre_avg in
  BarChart (map (fun m => avg_popularity_artist (left_row m)) merged_data)
           (map (fun m => avg_popularity_overall (left_row m)) merged_data)
           (map (fun m => Genre (left_row m)) merged_data).

End Artist.

(** ** 24COP504(1)/Genres.py *)

Module Genres.

Record row := Row {
  Genre : option string;
  AvgDanceability : option Qc;
  AvgDuration : option Qc;
  AvgPopularity : option Qc;
  TotalSongs : Z
}.

Global Instance row_eq_dec : EqDecision row.
Proof. solve_decision. Defined.

Definition with_genre (r : row) (g : option string) : row :=
  Row g (AvgDanceability r) (AvgDuration r) (AvgPopularity r) (TotalSongs r).

Inductive event :=
| Print (s : string)
| PrintTable (rows : list row)
| PieChart (slices : list (option string * Z)) (title : string).

(** [Series.str.split(sep)]: a null cell stays null. *)
Definition str_split (g : option string) (sep : string) : option (list string) :=
  option_map (fun s => split s sep) g.

(** The cells that [explode] makes of one cell: the elements of a list, a
    null for a null or for an empty list. *)
Definition explode_cell (cell : option (list string)) : list (option string) :=
  match cell with
  | None => [None]
  | Some [] => [None]
  | Some labels => map Some labels
  end.

(** [df['Genre'] = df['Genre'].str.split(', ')] followed by
    [df.explode('Genre')]. *)
Definition explode (df : list row) : list row :=
  flat_map (fun r => map (with_genre r) (explode_cell (str_split (Genre r) ", "))) df.

Definition Z_sum (l : list Z) : Z := foldr Z.add 0 l.

(** [df.groupby('Genre').agg({... 'mean' ..., 'TotalSongs': 'sum'}).reset_index()]. *)
Definition groupby_agg_summary (df : list row) : list row :=
  let ks := map Genre df in
  map (fun g => Row (Some g)
                  (mean (group_values g ks (map AvgDanceability df)))
                  (mean (group_values g ks (map AvgDuration df)))
                  (mean (group_values g ks (map AvgPopularity df)))
                  (Z_sum (group_values g ks (map TotalSongs df))))
      (group_keys String.le ks).

(** The two reshaping steps of the [else] branch. *)
Definition normalize (dfSummary : list row) : list row :=
  groupby_agg_summary (explode dfSummary).

(** The answer of the database to the per-year query is given by [db]; the
    result is what the function prints and draws, in order. *)
Definition fetch_year_summary_and_plot (db : Z -> list row) (year : Z) : list event :=
  let dfSummary := db year in
  match dfSummary with
  | [] => [Print ("No data available for the year " ++ pretty year ++ ".")]
  | _ =>
      let dfSummary := normalize dfSummary in
      [PrintTable dfSummary;
       PieChart (map (fun r => (Genre r, TotalSongs r)) dfSummary)
                ("Distribution of Total Songs by Genre in " ++ pretty year)]
  end.

(** *** The prompt for a year

    What the console shows: the prompt of an [input] call, or a printed
    line. *)
Inductive console :=
| Asked (prompt : string)
| Printed (line : string).

(** [input_year] either returns a year, leaving the lines it has not read,
    or the input ends under it and [input] raises [EOFError], which the
    function does not catch. *)
Inductive outcome :=
| Returned (a : Z) (rest : list string)
| EOFError.

(** The loop of [input_year] over the lines typed by the user. [int] is
    Python's conversion of a line to an integer, [None] where it raises
    [ValueError]. *)
Fixpoint input_year (int : string -> option Z) (inputs : list string)
  : list console * outcome :=
  match inputs with
  | [] => ([Asked "Enter a year: "], EOFError)
  | line :: inputs' =>
      match int line with
      | Some a =>
          if Z.leb 1998 a && Z.leb a 2020 then
            ([Asked "Enter a year: "; Printed ("Songs in Year " ++ pretty a)],
             Returned a inputs')
          else
            let (log, r) := input_year int inputs' in
            (Asked "Enter a year: "
               :: Printed "The number is not in the range. Please try again."
               :: log, r)
      | None =>
          let (log, r) := input_year int inputs' in
          (Asked "Enter a year: "
             :: Printed "Invalid input. Please enter a valid year."
             :: log, r)
      end
  end.

End Genres.

(** ** Test data *)

Definition qc (n : Z) (d : positive) : Qc := Q2Qc (n # d).

(** Artists A (10 songs, popularity 50) and B (5 songs, popularity 90). *)
Definition frame_AB : DataFrame :=
  [("ArtistName", ObjectSeries [Some "A"; Some "B"]);
   ("Year", Int64Series [2000; 2000]);
   ("num_songs", Int64Series [10; 5]);
   ("avg_popularity", Float64Series [Some (qc 50 1); Some (qc 90 1)])].

(** The same frame with its rank values (weights 0.5 and 0.5). *)
Definition rank_AB : list (option Qc) := [Some (qc 30 1); Some (qc 95 2)].
Definition frame_AB_ranked : DataFrame :=
  (frame_AB ++ [("rank_value", Float64Series rank_AB)])%list.

(** Three rows: the second has more songs and a higher popularity than the
    first, the third has no popularity. *)
Definition frame_dominated : DataFrame :=
  [("ArtistName", ObjectSeries [Some "A"; Some "B"; Some "C"]);
   ("Year", Int64Series [2000; 2000; 2000]);
   ("num_songs", Int64Series [5; 10; 3]);
   ("avg_popularity", Float64Series [Some (qc 50 1); Some (qc 90 1); None])].

Definition world_of (df : DataFrame) : Top5.world :=
  Top5.World (<[0%nat:=df]> (fun _ => [])) 1 [].

(** Artist A in two years (rank values 30 and 70, mean 50) and artist B in
    one (rank value 47.5). *)
Definition frame_years : DataFrame :=
  [("ArtistName", ObjectSeries [Some "A"; Some "B"; Some "A"]);
   ("Year", Int64Series [2000; 2000; 2001]);
   ("rank_value", Float64Series [Some (qc 30 1); Some (qc 95 2); Some (qc 70 1)])].

(** Rows of the genre tables used below. *)
Definition artist_pop_rock : Artist.row :=
  Artist.Row (Some "Pop, Rock") (Some (qc 80 1)) (Some (qc 80 1)).
Definition artist_pop : Artist.row :=
  Artist.Row (Some "Pop") (Some (qc 60 1)) (Some (qc 60 1)).
Definition artist_null : Artist.row :=
  Artist.Row None (Some (qc 0 1)) (Some (qc 50 1)).
Definition artist_rock : Artist.row :=
  Artist.Row (Some "Rock") (Some (qc 80 1)) (Some (qc 40 1)).
Definition summary_pop_rock : Genres.row :=
  Genres.Row (Some "Pop, Rock") (Some (qc 1 2)) (Some (qc 200 1)) (Some (qc 80 1)) 3.
Definition summary_two_blanks : Genres.row :=
  Genres.Row (Some "Pop,  Rock") (Some (qc 1 2)) (Some (qc 200 1)) (Some (qc 80 1)) 3.
Definition summary_pop : Genres.row :=
  Genres.Row (Some "Pop") (Some (qc 1 4)) (Some (qc 100 1)) (Some (qc 60 1)) 2.
Definition summary_rock : Genres.row :=
  Genres.Row (Some "Rock") (Some (qc 3 4)) (Some (qc 300 1)) (Some (qc 80 1)) 4.

(** Two artists with the same rank value, A first. *)
Definition tie_names : list (option key) := [Some (KStr "A"); Some (KStr "B")].
Definition tie_values : list (option Qc) := [Some (qc 1 1); Some (qc 1 1)].

(** Eighteen artists, A to R in this order, one row each, all with the same
    rank value. *)
Definition tie18_names : list (option key) :=
  map (fun a => Some (KStr a))
      ["A"; "B"; "C"; "D"; "E"; "F"; "G"; "H"; "I";
       "J"; "K"; "L"; "M"; "N"; "O"; "P"; "Q"; "R"].
Definition tie18_values : list (option Qc) := replicate 18 (Some (qc 1 1)).

(** * Statements *)

(** The labels of a genre field: its pieces between the delimiters [", "]. *)
Definition genre_labels (g : option string) : list string :=
  match g with
  | Some s => split s ", "
  | None => []
  end.

(** A genre field that carries exactly one label. *)
Definition single_label (g : option string) : Prop :=
  exists s, g = Some s /\ split s ", " = [s].

(** The reading under which the normaliser would trim its labels: the rows
    made of [r] carry the stripped pieces of its genre field. *)
Definition emits_trimmed_labels (r : Genres.row) : Prop :=
  forall g, Genres.Genre r = Some g ->
    map Genres.Genre (Genres.explode [r])
    = map (fun l => Some (strip l)) (split g ", ").

(** The reading under which normalisation would conserve the overall
    average: the mean over the rows of the normalised table is the mean over
    the rows of the table it was made of. *)
Definition conserves_overall_average (data : list Artist.row) : Prop :=
  forall out, Artist.split_and_aggregate data = Ok out ->
    mean (map Artist.avg_popularity_artist out)
    = mean (map Artist.avg_popularity_artist data) /\
    mean (map Artist.avg_popularity_overall out)
    = mean (map Artist.avg_popularity_overall data).

(** What a row contributes to the label [l]: its value, once for every
    occurrence of [l] among the labels of its genre field. *)
Definition contributions (f : Artist.row -> option Qc) (l : string)
    (data : list Artist.row) : list (option Qc) :=
  flat_map (fun x => map (fun _ => f x)
                       (filter (fun l' => l' = l) (genre_labels (Artist.Genre x))))
           data.

(** The average rank value of an artist: the mean of the rank values of all
    its rows ([None] for the rows without artist name). *)
Definition artist_avg (names : list (option key)) (values : list (option Qc))
    (a : option key) : option Qc :=
  k ← a; mean (group_values k names values).

(** Artist [a] is seen before artist [b]: a row of [a] comes before every
    row of [b]. *)
Definition seen_before (names : list (option key)) (a b : option key) : Prop :=
  exists i, names !! i = Some a /\ forall j, names !! j = Some b -> (i < j)%nat.

(** The reading under which ties go to the artist seen first. *)
Definition first_seen_wins (argsort : list (option Qc) -> list nat)
    (names : list (option key)) (values : list (option Qc)) (top_n : Z) : Prop :=
  let top := Top5.top_artist_names argsort names
               (transform_mean key_le names values) top_n in
  forall a b,
    seen_before names a b ->
    artist_avg names values a = artist_avg names values b ->
    b ∈ top -> a ∈ top.

(** The cells of a column [l] on the rows whose artist is in [top], in
    the order of the frame. *)
Definition rows_of_artists {B} (names top : list (option key)) (l : list B) : list B :=
  (filter (fun p => p.1 ∈ top) (zip names l)).*2.

(** Column [s'] holds the cells of column [s] on the rows whose artist is
    in [top], and nothing else. *)
Definition column_of_artists (names top : list (option key)) (s s' : Series) : Prop :=
  match s, s' with
  | ObjectSeries l, ObjectSeries l' => l' = rows_of_artists names top l
  | Int64Series l, Int64Series l' => l' = rows_of_artists names top l
  | Float64Series l, Float64Series l' => l' = rows_of_artists names top l
  | _, _ => False
  end.

(** A line that [input_year] turns down: not an integer, or a year out of
    range. *)
Definition turned_down (int : string -> option Z) (line : string) : Prop :=
  match int line with
  | Some a => ~ (1998 <= a <= 2020)
  | None => True
  end.

(** A frame whose columns all have [n] rows. *)
Definition well_formed (n : nat) (df : DataFrame) : Prop :=
  Forall (fun cs => series_len cs.2 = n) df.

(** A routine fit for [sort_values]: it sorts every key column. *)
Definition sort_contract (argsort : list (option Qc) -> list nat) : Prop :=
  forall ks, sorts_descending argsort ks.

(** A stable routine. *)
Definition stable_contract (argsort : list (option Qc) -> list nat) : Prop :=
  forall ks, sorts_stably argsort ks.

(** * Properties *)

Import Top5.

(** ** Columns of a frame *)

Lemma getitem_setitem_eq df c s : getitem (setitem df c s) c = Ok s.
Proof.
  induction df as [|[c' s'] df IH]; simpl.
  - by rewrite String.eqb_refl.
  - destruct (String.eqb c' c) eqn:E; simpl; rewrite E; [done | apply IH].
Qed.

Lemma getitem_setitem_ne df c c' s :
  c' <> c -> getitem (setitem df c s) c' = getitem df c'.
Proof.
  intros Hne. induction df as [|[d s'] df IH]; simpl.
  - destruct (String.eqb c c') eqn:E; [|done].
    apply String.eqb_eq in E. congruence.
  - destruct (String.eqb d c) eqn:E; simpl.
    + apply String.eqb_eq in E. subst d.
      destruct (String.eqb c c') eqn:E'; [|done].
      apply String.eqb_eq in E'. congruence.
    + by rewrite IH.
Qed.

Lemma setitem_names_new df c s :
  has_column df c = false -> (setitem df c s).*1 = (df.*1 ++ [c])%list.
Proof.
  unfold has_column. induction df as [|[d s'] df IH]; csimpl; [done|].
  destruct (String.eqb d c); csimpl; [done|]. intros H. by rewrite IH.
Qed.

Lemma setitem_names_old df c s :
  has_column df c = true -> (setitem df c s).*1 = df.*1.
Proof.
  unfold has_column. induction df as [|[d s'] df IH]; csimpl; [done|].
  destruct (String.eqb d c); csimpl; [done|]. intros H. by rewrite IH.
Qed.

(** ** Year validation *)

(** C7: for all integers [start_year] and [end_year], [validate_years]
    answers true exactly when 1998 <= start_year <= end_year <= 2020. *)
Theorem validate_years_iff (start_year end_year : Z) :
  validate_years start_year end_year = true <->
  1998 <= start_year /\ start_year <= end_year /\ end_year <= 2020.
Proof.
  unfold validate_years.
  destruct (Z.ltb_spec start_year 1998), (Z.gtb_spec end_year 2020),
    (Z.gtb_spec start_year end_year); simpl; split; intros; try lia; done.
Qed.

(** ** Running the script's effects *)

Ltac run_in H :=
  unfold calculate_rank_value, get_top_artists, get_top_5_artists_by_year_range,
    plot_top_5_artists_rank_values, get_artist_data, display_table, plot_data,
    bind, lift, deref, store, alloc, emit, ret in H;
  simpl in H.

Ltac run :=
  unfold calculate_rank_value, get_top_artists, get_top_5_artists_by_year_range,
    plot_top_5_artists_rank_values, get_artist_data, display_table, plot_data,
    bind, lift, deref, store, alloc, emit, ret;
  simpl.

(** What [calculate_rank_value] leaves behind when it returns. *)
Lemma calculate_rank_value_inv data wx wy w r w' :
  calculate_rank_value data wx wy w = Ok (r, w') ->
  exists ns ps x y,
    getitem (heap w data) "num_songs" = Ok ns /\
    mul_scalar ns wx = Ok x /\
    getitem (heap w data) "avg_popularity" = Ok ps /\
    mul_scalar ps wy = Ok y /\
    r = data /\
    w' = World (<[data:=setitem (heap w data) "rank_value"
                          (Float64Series (add_series x y))]> (heap w))
               (next w) (out w).
Proof.
  intros H. run_in H.
  destruct (getitem (heap w data) "num_songs") as [ns|]; [|done].
  destruct (mul_scalar ns wx) as [x|] eqn:Hx; [|done].
  destruct (getitem (heap w data) "avg_popularity") as [ps|]; [|done].
  destruct (mul_scalar ps wy) as [y|] eqn:Hy; [|done].
  simplify_eq. by exists ns, ps, x, y.
Qed.

(** What [get_top_artists] leaves behind when it returns. *)
Lemma get_top_artists_inv argsort data top_n w r w' :
  get_top_artists argsort data top_n w = Ok (r, w') ->
  exists by_name rank_value values,
    getitem (heap w data) "ArtistName" = Ok by_name /\
    getitem (heap w data) "rank_value" = Ok rank_value /\
    to_numeric rank_value = Ok values /\
    let avg := transform_mean key_le (keys_of by_name) values in
    let df := setitem (heap w data) "avg_rank_value" (Float64Series avg) in
    let top := top_artist_names argsort (keys_of by_name) avg top_n in
    r = next w /\
    w' = World (<[next w:=mask_frame (isin (keys_of by_name) top) df]>
                  (<[data:=df]> (heap w)))
               (S (next w)) (out w).
Proof.
  intros H. run_in H.
  destruct (getitem (heap w data) "ArtistName") as [by_name|] eqn:Hn; [|done].
  destruct (getitem (heap w data) "rank_value") as [rank_value|]; [|done].
  destruct (to_numeric rank_value) as [values|] eqn:Hv; [|done].
  simpl in H. rewrite fn_lookup_insert in H.
  rewrite getitem_setitem_eq in H. simpl in H.
  rewrite getitem_setitem_ne in H by done. rewrite Hn in H.
  simplify_eq. exists by_name, rank_value, values.
  repeat split; try done.
Qed.

(** ** In-place updates *)

(** C10: [calculate_rank_value] and [get_top_artists] update the caller's
    frame in place. The first returns the very object it was given and
    gives it the column ['rank_value']; the second returns a new object and
    gives the caller's frame the column ['avg_rank_value']. Every other
    column of the frame, with all its rows, every other object, and the
    output are as before. *)
Theorem in_place_frame_effect argsort (w : world) (data : loc) :
  (forall wx wy r w',
     calculate_rank_value data wx wy w = Ok (r, w') ->
     r = data /\ next w' = next w /\ out w' = out w /\
     (forall l, l <> data -> heap w' l = heap w l) /\
     has_column (heap w' data) "rank_value" = true /\
     (has_column (heap w data) "rank_value" = false ->
      (heap w' data).*1 = ((heap w data).*1 ++ ["rank_value"])%list) /\
     (forall c, c <> "rank_value" ->
                getitem (heap w' data) c = getitem (heap w data) c)) /\
  (forall top_n r w',
     (data < next w)%nat ->
     get_top_artists argsort data top_n w = Ok (r, w') ->
     r = next w /\ r <> data /\ out w' = out w /\
     (forall l, l <> data -> l <> r -> heap w' l = heap w l) /\
     has_column (heap w' data) "avg_rank_value" = true /\
     (has_column (heap w data) "avg_rank_value" = false ->
      (heap w' data).*1 = ((heap w data).*1 ++ ["avg_rank_value"])%list) /\
     (forall c, c <> "avg_rank_value" ->
                getitem (heap w' data) c = getitem (heap w data) c)).
Proof.
  split.
  - intros wx wy r w' H.
    apply calculate_rank_value_inv in H
      as (ns & ps & x & y & _ & _ & _ & _ & -> & ->). simpl.
    repeat split; try done.
    + intros l Hl. by rewrite fn_lookup_insert_ne.
    + rewrite fn_lookup_insert. unfold has_column.
      by rewrite getitem_setitem_eq.
    + intros Hnew. rewrite fn_lookup_insert. by apply setitem_names_new.
    + intros c Hc. rewrite fn_lookup_insert. by apply getitem_setitem_ne.
  - intros top_n r w' Hlt H.
    apply get_top_artists_inv in H
      as (by_name & rank_value & values & _ & _ & _ & -> & ->). simpl.
    assert (next w <> data) as Hne by lia.
    repeat split; try done.
    + intros l Hl Hl'. rewrite !fn_lookup_insert_ne; done.
    + rewrite fn_lookup_insert_ne, fn_lookup_insert by done.
      unfold has_column. by rewrite getitem_setitem_eq.
    + intros Hnew. rewrite fn_lookup_insert_ne, fn_lookup_insert by done.
      by apply setitem_names_new.
    + intros c Hc. rewrite fn_lookup_insert_ne, fn_lookup_insert by done.
      by apply getitem_setitem_ne.
Qed.

(** ** Sorting routines *)

Lemma desc_ge_trans a b c : desc_ge a b -> desc_ge b c -> desc_ge a c.
Proof.
  destruct a as [x|], b as [y|], c as [z|]; simpl; try done.
  intros ??. by trans y.
Qed.

Lemma goes_before_true a b : goes_before a b = true -> desc_ge a b.
Proof.
  destruct a as [x|], b as [y|]; simpl; try done.
  by intros H%bool_decide_eq_true.
Qed.

Lemma goes_before_false a b : goes_before a b = false -> desc_ge b a.
Proof.
  destruct a as [x|], b as [y|]; simpl; try done.
  intros H%bool_decide_eq_false. apply Qclt_le_weak. by apply Qcnot_le_lt.
Qed.

Lemma goes_before_false_ne a b : goes_before a b = false -> b <> a.
Proof.
  destruct a as [x|], b as [y|]; simpl; try done.
  intros H%bool_decide_eq_false ?. simplify_eq. by apply H.
Qed.

Lemma insert_row_perm ks i l : insert_row ks i l ≡ₚ i :: l.
Proof.
  induction l as [|j l IH]; simpl; [done|].
  destruct (goes_before _ _); [done|]. rewrite IH. apply perm_swap.
Qed.

Lemma insertion_argsort_go_perm ks l :
  foldr (insert_row ks) [] l ≡ₚ l.
Proof.
  induction l as [|i l IH]; simpl; [done|].
  by rewrite insert_row_perm, IH.
Qed.

Lemma insert_row_sorted ks i l :
  let R := fun i j => desc_ge (key_at ks i) (key_at ks j) in
  StronglySorted R l -> StronglySorted R (insert_row ks i l).
Proof.
  intros R. induction 1 as [|j l Hl IH Hj]; simpl.
  - repeat constructor.
  - destruct (goes_before _ _) eqn:E.
    + apply goes_before_true in E. constructor; [by constructor|].
      constructor; [done|]. eapply Forall_impl; [exact Hj|].
      intros k Hk. by eapply desc_ge_trans.
    + apply goes_before_false in E. constructor; [done|].
      rewrite insert_row_perm. by constructor.
Qed.

Lemma insertion_argsort_sorts : sort_contract insertion_argsort.
Proof.
  intros ks. split.
  - apply insertion_argsort_go_perm.
  - unfold insertion_argsort. induction (seq 0 (length ks)) as [|i l IH]; simpl.
    + constructor.
    + by apply insert_row_sorted.
Qed.

Lemma insert_row_stable ks i l :
  let S := fun i j => key_at ks i = key_at ks j -> (i < j)%nat in
  Forall (fun j => (i < j)%nat) l ->
  StronglySorted S l -> StronglySorted S (insert_row ks i l).
Proof.
  intros S Hi. induction 1 as [|j l Hl IH Hj]; simpl.
  - repeat constructor.
  - destruct (goes_before _ _) eqn:E.
    + constructor; [by constructor|].
      eapply Forall_impl; [exact Hi|]. by intros k Hk _.
    + apply goes_before_false_ne in E. constructor.
      * apply IH. by inversion Hi.
      * rewrite insert_row_perm. constructor; [|done]. by intros ?.
Qed.

Lemma stable_argsort_stable : stable_contract stable_argsort.
Proof.
  intros ks. unfold sorts_stably, stable_argsort, insertion_argsort.
  generalize (length ks) as n. generalize 0%nat as a.
  intros a n. revert a. induction n as [|n IH]; intros a; simpl.
  - constructor.
  - apply insert_row_stable; [|apply IH].
    rewrite insertion_argsort_go_perm. apply Forall_forall.
    intros j Hj%elem_of_seq. lia.
Qed.

Lemma get_top_artists_run argsort data top_n w by_name rank_value values :
  getitem (heap w data) "ArtistName" = Ok by_name ->
  getitem (heap w data) "rank_value" = Ok rank_value ->
  to_numeric rank_value = Ok values ->
  let avg := transform_mean key_le (keys_of by_name) values in
  let df := setitem (heap w data) "avg_rank_value" (Float64Series avg) in
  let top := top_artist_names argsort (keys_of by_name) avg top_n in
  get_top_artists argsort data top_n w =
  Ok (next w,
      World (<[next w:=mask_frame (isin (keys_of by_name) top) df]>
               (<[data:=df]> (heap w)))
            (S (next w)) (out w)).
Proof.
  intros Hn Hr Hv. run. rewrite Hn, Hr. simpl. rewrite Hv. simpl.
  rewrite fn_lookup_insert, getitem_setitem_eq. simpl.
  rewrite getitem_setitem_ne by done. by rewrite Hn.
Qed.

Lemma two_rows_order argsort (a b : Qc) :
  sorts_descending argsort [Some a; Some b] -> (a < b)%Qc ->
  argsort [Some a; Some b] = [1; 0]%nat.
Proof.
  intros [Hp Hs] Hlt. simpl in Hp. symmetry in Hp.
  apply Permutation_length_2_inv in Hp as [Hp|Hp]; [|done].
  rewrite Hp in Hs. inversion Hs as [|?? _ Hall]; subst.
  inversion Hall as [|?? Hge _]; subst. simpl in Hge.
  by apply Qcle_not_lt in Hge.
Qed.

(** Closed equations between rationals, decided by evaluation. *)
Ltac qc_eq := apply (bool_decide_unpack _); vm_compute; exact I.

(** ** The rank value *)

(** C3: for every row with a song count [n] and an average popularity [p]
    and for any weights, the rank value that [calculate_rank_value] stores
    is [weight_x * n + weight_y * p]. With weights 0.5 and 0.5, artist A
    (10 songs, popularity 50) gets 30 and artist B (5 songs, popularity 90)
    gets 47.5, and B is ranked above A: whatever the sorting routine, the
    top-1 selection is B. *)
Theorem rank_value_formula :
  (forall (w : world) (data : loc) (weight_x weight_y : Qc) ns ps,
     getitem (heap w data) "num_songs" = Ok (Int64Series ns) ->
     getitem (heap w data) "avg_popularity" = Ok (Float64Series ps) ->
     exists w' rv,
       calculate_rank_value data weight_x weight_y w = Ok (data, w') /\
       getitem (heap w' data) "rank_value" = Ok (Float64Series rv) /\
       length rv = Nat.min (length ns) (length ps) /\
       forall i n p,
         ns !! i = Some n -> ps !! i = Some (Some p) ->
         rv !! i = Some (Some (weight_x * Qc_of_Z n + weight_y * p)%Qc)) /\
  (exists w',
     calculate_rank_value 0%nat half half (world_of frame_AB) = Ok (0%nat, w') /\
     getitem (heap w' 0%nat) "rank_value"
       = Ok (Float64Series [Some (qc 30 1); Some (qc 95 2)]) /\
     (qc 30 1 < qc 95 2)%Qc /\
     forall argsort, sort_contract argsort ->
       exists r w'',
         get_top_artists argsort 0%nat 1 w' = Ok (r, w'') /\
         getitem (heap w'' r) "ArtistName" = Ok (ObjectSeries [Some "B"])).
Proof.
  split.
  - intros w data wx wy ns ps Hns Hps. eexists _, _. split; [|split; [|split]].
    + run. rewrite Hns, Hps. simpl. reflexivity.
    + simpl. rewrite fn_lookup_insert. apply getitem_setitem_eq.
    + unfold add_series. by rewrite length_zip_with, !length_map.
    + intros i n p Hn Hp. unfold add_series.
      rewrite lookup_zip_with, !list_lookup_fmap, Hn, Hp. simpl.
      by rewrite (Qcmult_comm wx), (Qcmult_comm wy).
  - eexists. split; [reflexivity|]. split; [|split].
    + simpl. do 2 f_equal; try qc_eq.
    + reflexivity.
    + intros argsort Hsort. eexists _, _. split.
      * eapply get_top_artists_run; reflexivity.
      * set (avg := transform_mean _ _ _).
        assert (avg = [Some (qc 30 1); Some (qc 95 2)]) as -> by qc_eq.
        unfold top_artist_names.
        rewrite (two_rows_order argsort) by (apply Hsort || reflexivity).
        reflexivity.
Qed.

(** ** No data *)

(** C6: when the query matches no row, the pipeline prints its "no data"
    message and answers [None] without raising; nothing is aggregated (the
    frame is left as the query returned it) and nothing is displayed or
    plotted. This holds for the year-range ranking of [Top5.py] and for the
    per-year summary of [Genres.py]. *)
Theorem empty_result_no_data argsort (db : Z -> Z -> DataFrame)
    (gdb : Z -> list Genres.row) (start_year end_year year : Z) (w : world) :
  (empty (db start_year end_year) = true ->
   let w' := World (<[next w:=db start_year end_year]> (heap w)) (S (next w))
               (out w ++ [Print ("No data found for the years "
                                   ++ pretty start_year ++ "-"
                                   ++ pretty end_year ++ ".")])%list in
   get_top_5_artists_by_year_range argsort db start_year end_year w = Ok (None, w') /\
   plot_top_5_artists_rank_values argsort db start_year end_year w = Ok (tt, w')) /\
  (gdb year = [] ->
   Genres.fetch_year_summary_and_plot gdb year
   = [Genres.Print ("No data available for the year " ++ pretty year ++ ".")]).
Proof.
  split.
  - intros Hempty w'.
    assert (get_top_5_artists_by_year_range argsort db start_year end_year w
            = Ok (None, w')) as Hrun.
    { unfold get_top_5_artists_by_year_range, get_artist_data, bind, alloc,
        deref, emit, ret. simpl. by rewrite fn_lookup_insert, Hempty. }
    split; [done|].
    unfold plot_top_5_artists_rank_values, bind. by rewrite Hrun.
  - intros Hempty. unfold Genres.fetch_year_summary_and_plot. by rewrite Hempty.
Qed.

(** ** Duplicates and groups *)

Section drop_duplicates_facts.
Context {A : Type} `{EqDecision A}.
Implicit Types (l seen : list A) (x : A).

Lemma drop_duplicates_go_elem seen l x :
  x ∈ drop_duplicates_go seen l <-> x ∈ l /\ x ∉ seen.
Proof.
  revert seen. induction l as [|y l IH]; intros seen; simpl.
  - rewrite elem_of_nil. tauto.
  - case_bool_decide as Hy.
    + rewrite IH, elem_of_cons. split; [intros [? ?]; by auto|].
      intros [[->|?] ?]; done.
    + rewrite !elem_of_cons, IH, elem_of_cons. split.
      * intros [->|[? ?]]; [by auto|]. split; [by auto|]. tauto.
      * intros [[->|?] ?]; [by auto|].
        destruct (decide (x = y)); [by auto|]. right. split; [done|]. tauto.
Qed.

Lemma drop_duplicates_elem l x : x ∈ drop_duplicates l <-> x ∈ l.
Proof.
  unfold drop_duplicates. rewrite drop_duplicates_go_elem.
  split; [tauto|]. intros ?. split; [done|]. apply not_elem_of_nil.
Qed.

Lemma drop_duplicates_go_NoDup seen l : NoDup (drop_duplicates_go seen l).
Proof.
  revert seen. induction l as [|y l IH]; intros seen; simpl.
  - constructor.
  - case_bool_decide as Hy; [done|]. constructor; [|done].
    rewrite drop_duplicates_go_elem, elem_of_cons. tauto.
Qed.

Lemma drop_duplicates_NoDup l : NoDup (drop_duplicates l).
Proof. apply drop_duplicates_go_NoDup. Qed.

Lemma drop_duplicates_go_sublist seen l : drop_duplicates_go seen l `sublist_of` l.
Proof.
  revert seen. induction l as [|y l IH]; intros seen; simpl; [done|].
  case_bool_decide; [by apply sublist_cons | by apply sublist_skip].
Qed.

Lemma drop_duplicates_go_id seen l :
  NoDup l -> (forall x, x ∈ l -> x ∉ seen) -> drop_duplicates_go seen l = l.
Proof.
  intros Hnd. revert seen. induction Hnd as [|y l Hy Hnd IH]; intros seen Hs; simpl.
  - done.
  - rewrite bool_decide_eq_false_2 by (apply Hs; left). f_equal.
    apply IH. intros x Hx [->|?]%elem_of_cons; [done|].
    by apply (Hs x); [right|].
Qed.

Lemma drop_duplicates_id l : NoDup l -> drop_duplicates l = l.
Proof.
  intros. apply drop_duplicates_go_id; [done|]. intros x _. apply not_elem_of_nil.
Qed.

End drop_duplicates_facts.

Lemma StronglySorted_sublist {A} (R : relation A) (k l : list A) :
  k `sublist_of` l -> StronglySorted R l -> StronglySorted R k.
Proof.
  induction 1 as [|x k l Hs IH|x k l Hs IH]; intros Hl.
  - done.
  - apply StronglySorted_inv in Hl as [Hl Hx]. constructor; [by apply IH|].
    apply Forall_forall. intros y Hy. rewrite Forall_forall in Hx. apply Hx.
    by eapply elem_of_sublist.
  - apply StronglySorted_inv in Hl as [Hl _]. by apply IH.
Qed.

Section groupby_facts.
Context {K : Type} `{EqDecision K} (le : relation K) `{!RelDecision le}.

Lemma group_keys_elem (ks : list (option K)) k :
  k ∈ group_keys le ks <-> Some k ∈ ks.
Proof.
  unfold group_keys. rewrite merge_sort_Permutation, drop_duplicates_elem.
  rewrite list_elem_of_omap. split.
  - intros ([k'|] & Hin & Heq); simplify_eq/=. done.
  - intros Hin. by exists (Some k).
Qed.

Lemma group_keys_NoDup (ks : list (option K)) : NoDup (group_keys le ks).
Proof.
  unfold group_keys. rewrite merge_sort_Permutation. apply drop_duplicates_NoDup.
Qed.

Lemma group_values_map {R V} (key : R -> option K) (f : R -> V) (rows : list R) k :
  group_values k (map key rows) (map f rows)
  = map f (filter (fun r => key r = Some k) rows).
Proof.
  unfold group_values. induction rows as [|r rows IH]; simpl; [done|].
  rewrite !filter_cons. simpl. destruct (decide (key r = Some k)); csimpl.
  - f_equal. apply IH.
  - apply IH.
Qed.

Lemma assoc_map {W} (F : K -> W) (l : list K) k :
  k ∈ l -> assoc k (map (fun k => (k, F k)) l) = Some (F k).
Proof.
  induction l as [|k' l IH]; simpl; [by intros ?%elem_of_nil|].
  intros Hin. case_bool_decide as Hk; [by subst|].
  apply IH. by apply elem_of_cons in Hin as [->|?].
Qed.

Lemma assoc_groupby_agg {V W} (f : list V -> W) ks vs k :
  Some k ∈ ks -> assoc k (groupby_agg le f ks vs) = Some (f (group_values k ks vs)).
Proof.
  intros Hin. unfold groupby_agg.
  apply (assoc_map (fun k => f (group_values k ks vs))).
  by apply group_keys_elem.
Qed.

(** Every row receives the mean of the values of its group. *)
Lemma transform_mean_lookup ks vs i :
  transform_mean le ks vs !! i
  = (fun ok => k ← ok; mean (group_values k ks vs)) <$> ks !! i.
Proof.
  unfold transform_mean. rewrite list_lookup_fmap.
  destruct (ks !! i) as [[k|]|] eqn:Hi; simpl; try done.
  rewrite assoc_groupby_agg; [done|]. by eapply list_elem_of_lookup_2.
Qed.

End groupby_facts.

(** ** Splitting and the mean *)

Lemma split_go_nonempty sep skip cur s : split_go sep skip cur s <> [].
Proof.
  revert skip cur. induction s as [|c s IH]; intros skip cur; simpl; [done|].
  destruct skip; [|apply IH]. case_match; [done | apply IH].
Qed.

Lemma split_nonempty s sep : split s sep <> [].
Proof. apply split_go_nonempty. Qed.

Lemma mean_singleton (c : option Qc) : mean [c] = c.
Proof.
  destruct c as [v|]; [|done]. unfold mean. simpl. f_equal.
  rewrite Qcplus_0_r. change (Qc_of_Z 1) with 1%Qc. apply (right_id 1%Qc Qcdiv).
Qed.

Lemma Qc_sum_Permutation l k : l ≡ₚ k -> Qc_sum l = Qc_sum k.
Proof.
  induction 1 as [|x l k _ IH|x y l|l k m _ IH1 _ IH2]; simpl.
  - done.
  - by rewrite IH.
  - rewrite !Qcplus_assoc. by rewrite (Qcplus_comm y x).
  - by rewrite IH1.
Qed.

Lemma mean_Permutation l k : l ≡ₚ k -> mean l = mean k.
Proof.
  intros Hp. unfold mean, dropna.
  assert (omap id l ≡ₚ omap id k) as Hd by by rewrite Hp.
  destruct (omap id l) as [|v vs], (omap id k) as [|v' vs'].
  - done.
  - by apply Permutation_nil_cons in Hd.
  - symmetry in Hd. by apply Permutation_nil_cons in Hd.
  - by rewrite (Qc_sum_Permutation _ _ Hd), (Permutation_length Hd).
Qed.

(** A value is found once in a list without duplicates. *)
Lemma filter_unique {R A} `{EqDecision A} (f : R -> A) (rows : list R) r :
  NoDup (map f rows) -> r ∈ rows ->
  filter (fun x => f x = f r) rows = [r].
Proof.
  induction rows as [|x rows IH]; simpl; [by intros _ ?%elem_of_nil|].
  intros [Hx Hnd]%NoDup_cons Hr. rewrite filter_cons.
  apply elem_of_cons in Hr as [->|Hr].
  - rewrite decide_True by done. f_equal.
    apply elem_of_nil_inv. intros y [Heq Hy]%list_elem_of_filter.
    apply Hx. rewrite <- Heq. apply list_elem_of_fmap. by exists y.
  - rewrite decide_False; [by apply IH|].
    intros Heq. apply Hx. rewrite Heq. apply list_elem_of_fmap. by exists r.
Qed.

(** ** The genre normaliser *)

Lemma append_genres_app r genres rows :
  Artist.append_genres r genres rows
  = (rows ++ map (fun l => Artist.Row (Some l) (Artist.avg_popularity_artist r)
                             (Artist.avg_popularity_overall r)) genres)%list.
Proof.
  unfold Artist.append_genres. revert rows.
  induction genres as [|g genres IH]; intros rows; simpl.
  - by rewrite app_nil_r.
  - rewrite IH. by rewrite <- app_assoc.
Qed.

(** The loop of [split_and_aggregate] on rows that all have a genre. *)
Lemma iterrows_loop_ok data rows :
  Forall (fun r => Artist.Genre r <> None) data ->
  Artist.iterrows_loop data rows
  = Ok (rows ++ flat_map (fun r =>
          map (fun l => Artist.Row (Some l) (Artist.avg_popularity_artist r)
                          (Artist.avg_popularity_overall r))
              (genre_labels (Artist.Genre r))) data)%list.
Proof.
  intros Hall. revert rows.
  induction Hall as [|r data Hr _ IH]; intros rows; simpl.
  - by rewrite app_nil_r.
  - destruct (Artist.Genre r) as [g|] eqn:Hg; [|done]. simpl.
    rewrite IH, append_genres_app. by rewrite <- app_assoc.
Qed.

(** The loop stops with an [AttributeError] at the first row without genre. *)
Lemma iterrows_loop_null data rows :
  Exists (fun r => Artist.Genre r = None) data ->
  Artist.iterrows_loop data rows
  = Raise (AttributeError "'NoneType' object has no attribute 'split'").
Proof.
  intros Hex. revert rows.
  induction data as [|r data IH]; intros rows; simpl.
  - by apply Exists_nil in Hex.
  - destruct (Artist.Genre r) as [g|] eqn:Hg; [|done].
    apply IH. apply Exists_cons in Hex as [Hex|Hex]; [congruence | done].
Qed.

Lemma explode_ok df :
  Forall (fun r => Genres.Genre r <> None) df ->
  Genres.explode df
  = flat_map (fun r => map (fun l => Genres.with_genre r (Some l))
                         (genre_labels (Genres.Genre r))) df.
Proof.
  unfold Genres.explode. induction 1 as [|r df Hr _ IH]; simpl; [done|].
  rewrite IH. f_equal.
  destruct (Genres.Genre r) as [g|] eqn:Hg; [|done]. simpl.
  pose proof (split_nonempty g ", ") as Hne.
  destruct (split g ", ") as [|l ls]; [done|]. simpl. f_equal.
  by rewrite map_map.
Qed.

Lemma groupby_agg_summary_rows ex :
  Genres.groupby_agg_summary ex
  = map (fun g =>
           let grp := filter (fun x => Genres.Genre x = Some g) ex in
           Genres.Row (Some g)
             (mean (map Genres.AvgDanceability grp))
             (mean (map Genres.AvgDuration grp))
             (mean (map Genres.AvgPopularity grp))
             (Genres.Z_sum (map Genres.TotalSongs grp)))
        (group_keys String.le (map Genres.Genre ex)).
Proof.
  unfold Genres.groupby_agg_summary. apply map_ext. intros g.
  by rewrite !group_values_map.
Qed.

Lemma groupby_mean_rows ex :
  Artist.groupby_mean ex
  = map (fun g =>
           let grp := filter (fun x => Artist.Genre x = Some g) ex in
           Artist.Row (Some g)
             (mean (map Artist.avg_popularity_artist grp))
             (mean (map Artist.avg_popularity_overall grp)))
        (group_keys String.le (map Artist.Genre ex)).
Proof.
  unfold Artist.groupby_mean. apply map_ext. intros g.
  by rewrite !group_values_map.
Qed.

Lemma explode_cell_labels g l :
  Some l ∈ Genres.explode_cell (Genres.str_split g ", ") <-> l ∈ genre_labels g.
Proof.
  destruct g as [s|]; simpl.
  - pose proof (split_nonempty s ", ") as Hne.
    destruct (split s ", ") as [|x ls]; [done|].
    change (Some x :: map Some ls) with (Some <$> (x :: ls)).
    rewrite list_elem_of_fmap. split; [by intros (? & [= ->] & ?) | by exists l].
  - rewrite list_elem_of_singleton, elem_of_nil. by split.
Qed.

(** The labels of the summary are the labels of the rows it is made of. *)
Lemma explode_groupby_labels df l :
  Some l ∈ map Genres.Genre (Genres.normalize df)
  <-> exists r, r ∈ df /\ l ∈ genre_labels (Genres.Genre r).
Proof.
  unfold Genres.normalize. rewrite groupby_agg_summary_rows, map_map. simpl.
  change (map Some ?k) with (Some <$> k). rewrite list_elem_of_fmap.
  setoid_rewrite (group_keys_elem String.le).
  transitivity (Some l ∈ map Genres.Genre (Genres.explode df)).
  { split; [by intros (? & [= ->] & ?) | by exists l]. }
  unfold Genres.explode. induction df as [|r df IH]; simpl.
  - rewrite elem_of_nil. split; [done | by intros (? & ?%elem_of_nil & _)].
  - rewrite map_app, elem_of_app, IH, map_map. simpl. rewrite map_id.
    rewrite explode_cell_labels. setoid_rewrite elem_of_cons. split.
    + intros [?|(x & ? & ?)]; [by exists r; auto | by exists x; auto].
    + intros (x & [->|?] & ?); [by left | right; by exists x].
Qed.

(** C1, as amended: for every row with a genre field, the normaliser emits
    one row per piece of the field between the delimiters [", "] (the
    pieces are not trimmed any further), every metric copied, not divided;
    it then groups the expanded rows by label, one output row per label,
    rate metrics reduced by the arithmetic mean (over the values that are
    not NaN) and the song count by the sum. A row "Pop, Rock" of popularity
    80 expands to Pop 80 and Rock 80, and together with a row "Pop" of
    popularity 60 gives Pop 70 and Rock 80. *)
Theorem genre_normalizer_contract :
  (forall df, Forall (fun r => Genres.Genre r <> None) df ->
     Genres.explode df
     = flat_map (fun r => map (fun l => Genres.with_genre r (Some l))
                            (genre_labels (Genres.Genre r))) df) /\
  (forall data, Forall (fun r => Artist.Genre r <> None) data ->
     Artist.iterrows_loop data []
     = Ok (flat_map (fun r =>
             map (fun l => Artist.Row (Some l) (Artist.avg_popularity_artist r)
                             (Artist.avg_popularity_overall r))
                 (genre_labels (Artist.Genre r))) data)) /\
  (forall ex,
     let out := Genres.groupby_agg_summary ex in
     NoDup (map Genres.Genre out) /\
     (forall l, Some l ∈ map Genres.Genre out <-> Some l ∈ map Genres.Genre ex) /\
     Forall (fun r =>
       Genres.Genre r <> None /\
       let grp := filter (fun x => Genres.Genre x = Genres.Genre r) ex in
       Genres.AvgDanceability r = mean (map Genres.AvgDanceability grp) /\
       Genres.AvgDuration r = mean (map Genres.AvgDuration grp) /\
       Genres.AvgPopularity r = mean (map Genres.AvgPopularity grp) /\
       Genres.TotalSongs r = Genres.Z_sum (map Genres.TotalSongs grp)) out) /\
  (forall ex,
     let out := Artist.groupby_mean ex in
     NoDup (map Artist.Genre out) /\
     (forall l, Some l ∈ map Artist.Genre out <-> Some l ∈ map Artist.Genre ex) /\
     Forall (fun r =>
       Artist.Genre r <> None /\
       let grp := filter (fun x => Artist.Genre x = Artist.Genre r) ex in
       Artist.avg_popularity_artist r = mean (map Artist.avg_popularity_artist grp) /\
       Artist.avg_popularity_overall r
       = mean (map Artist.avg_popularity_overall grp)) out) /\
  (forall v vs,
     mean (map Some (v :: vs))
     = Some (Qc_sum (v :: vs) / Qc_of_Z (Z.of_nat (length (v :: vs))))%Qc) /\
  Genres.explode [summary_pop_rock]
  = [Genres.with_genre summary_pop_rock (Some "Pop");
     Genres.with_genre summary_pop_rock (Some "Rock")] /\
  Genres.normalize [summary_pop_rock; summary_pop]
  = [Genres.Row (Some "Pop") (Some (qc 3 8)) (Some (qc 150 1)) (Some (qc 70 1)) 5;
     Genres.Row (Some "Rock") (Some (qc 1 2)) (Some (qc 200 1)) (Some (qc 80 1)) 3] /\
  Artist.split_and_aggregate [artist_pop_rock; artist_pop]
  = Ok [Artist.Row (Some "Pop") (Some (qc 70 1)) (Some (qc 70 1));
        Artist.Row (Some "Rock") (Some (qc 80 1)) (Some (qc 80 1))].
Proof.
  split; [exact explode_ok|].
  split; [intros data Hall; by rewrite iterrows_loop_ok|].
  split; [|split; [|split; [|split; [|split]]]].
  - intros ex out. subst out. rewrite groupby_agg_summary_rows.
    split; [|split].
    + rewrite map_map. simpl. apply (NoDup_fmap_2 Some), group_keys_NoDup.
    + intros l. rewrite map_map. simpl.
      change (map Some ?k) with (Some <$> k).
      rewrite list_elem_of_fmap. setoid_rewrite <- (group_keys_elem String.le).
      split; [by intros (? & [= ->] & ?) | by exists l].
    + apply Forall_forall. intros r Hr.
      change (map ?f ?k) with (f <$> k) in Hr.
      apply list_elem_of_fmap in Hr as (g & -> & _). by simpl.
  - intros ex out. subst out. rewrite groupby_mean_rows.
    split; [|split].
    + rewrite map_map. simpl. apply (NoDup_fmap_2 Some), group_keys_NoDup.
    + intros l. rewrite map_map. simpl.
      change (map Some ?k) with (Some <$> k).
      rewrite list_elem_of_fmap. setoid_rewrite <- (group_keys_elem String.le).
      split; [by intros (? & [= ->] & ?) | by exists l].
    + apply Forall_forall. intros r Hr.
      change (map ?f ?k) with (f <$> k) in Hr.
      apply list_elem_of_fmap in Hr as (g & -> & _). by simpl.
  - intros v vs. unfold mean, dropna.
    assert (forall l : list Qc, omap id (map Some l) = l) as Hl.
    { induction l as [|x l IH]; [done|]. simpl. by f_equal. }
    by rewrite (Hl (v :: vs)).
  - reflexivity.
  - qc_eq.
  - qc_eq.
Qed.

(** C1, the claim as stated, fails: the piece [" Rock"] of the genre field
    ["Pop,  Rock"] keeps its blank. *)
Lemma labels_not_trimmed : ~ emits_trimmed_labels summary_two_blanks.
Proof. intros H. specialize (H _ eq_refl). vm_compute in H. discriminate H. Qed.

(** ** Rows that already carry one label each *)

Lemma NoDup_omap_id {A} (l : list (option A)) : NoDup l -> NoDup (omap id l).
Proof.
  induction 1 as [|[x|] l Hx _ IH]; simpl; [constructor| |done].
  constructor; [|done]. intros Hin. apply Hx.
  apply list_elem_of_omap in Hin as ([y|] & Hy & Heq); simplify_eq/=. done.
Qed.

Lemma map_omap_key {R K} (key : R -> option K) (F : K -> R) (rows : list R) :
  Forall (fun r => exists g, key r = Some g /\ F g = r) rows ->
  map F (omap id (map key rows)) = rows.
Proof.
  induction 1 as [|r rows (g & Hg & HF) _ IH]; simpl; [done|].
  rewrite Hg. simpl. by f_equal.
Qed.

Lemma group_keys_distinct (ks : list (option string)) :
  NoDup ks -> group_keys String.le ks ≡ₚ omap id ks.
Proof.
  intros Hnd. unfold group_keys. rewrite merge_sort_Permutation.
  by rewrite drop_duplicates_id by by apply NoDup_omap_id.
Qed.

Lemma single_label_some g : single_label g -> g <> None.
Proof. by intros (s & -> & _). Qed.

Lemma groupby_mean_distinct data :
  Forall (fun r => Artist.Genre r <> None) data ->
  NoDup (map Artist.Genre data) ->
  Artist.groupby_mean data ≡ₚ data.
Proof.
  intros Hall Hnd. rewrite groupby_mean_rows.
  change (map ?f (group_keys ?le ?ks)) with (f <$> group_keys le ks).
  rewrite (group_keys_distinct _ Hnd).
  erewrite (map_omap_key Artist.Genre); [done|].
  apply Forall_forall. intros r Hr.
  rewrite Forall_forall in Hall. specialize (Hall r Hr).
  destruct (Artist.Genre r) as [g|] eqn:Hg; [|done]. exists g. split; [done|].
  simpl. rewrite <- Hg, (filter_unique Artist.Genre) by done. simpl.
  rewrite !mean_singleton. destruct r; simpl in *. by subst.
Qed.

Lemma groupby_agg_summary_distinct df :
  Forall (fun r => Genres.Genre r <> None) df ->
  NoDup (map Genres.Genre df) ->
  Genres.groupby_agg_summary df ≡ₚ df.
Proof.
  intros Hall Hnd. rewrite groupby_agg_summary_rows.
  change (map ?f (group_keys ?le ?ks)) with (f <$> group_keys le ks).
  rewrite (group_keys_distinct _ Hnd).
  erewrite (map_omap_key Genres.Genre); [done|].
  apply Forall_forall. intros r Hr.
  rewrite Forall_forall in Hall. specialize (Hall r Hr).
  destruct (Genres.Genre r) as [g|] eqn:Hg; [|done]. exists g. split; [done|].
  simpl. rewrite <- Hg, (filter_unique Genres.Genre) by done. simpl.
  rewrite !mean_singleton. unfold Genres.Z_sum. simpl. rewrite ?Z.add_0_r.
  destruct r; simpl in *. by subst.
Qed.

Lemma expand_single_labels data :
  Forall (fun r => single_label (Artist.Genre r)) data ->
  flat_map (fun r =>
     map (fun l => Artist.Row (Some l) (Artist.avg_popularity_artist r)
                     (Artist.avg_popularity_overall r))
         (genre_labels (Artist.Genre r))) data = data.
Proof.
  induction 1 as [|r data (s & Hs & Hsplit) _ IH]; simpl; [done|].
  rewrite IH, Hs. simpl. rewrite Hsplit. simpl. f_equal.
  destruct r; simpl in *. by subst.
Qed.

Lemma explode_single_labels df :
  Forall (fun r => single_label (Genres.Genre r)) df -> Genres.explode df = df.
Proof.
  intros Hall. rewrite explode_ok.
  - induction Hall as [|r df (s & Hs & Hsplit) _ IH]; simpl; [done|].
    rewrite IH, Hs. simpl. rewrite Hsplit. simpl. f_equal.
    destruct r; simpl in *. by subst.
  - eapply Forall_impl; [exact Hall|]. intros r. apply single_label_some.
Qed.

(** On a frame that is not empty, whose rows carry one label each, all
    different, [split_and_aggregate] returns the rows it was given. *)
Lemma split_and_aggregate_single_labels data :
  data <> [] ->
  Forall (fun r => single_label (Artist.Genre r)) data ->
  NoDup (map Artist.Genre data) ->
  exists out, Artist.split_and_aggregate data = Ok out /\ out ≡ₚ data.
Proof.
  intros Hne Hall Hnd.
  assert (Forall (fun r => Artist.Genre r <> None) data) as Hsome.
  { eapply Forall_impl; [exact Hall|]. intros r. apply single_label_some. }
  exists (Artist.groupby_mean data). split; [|by apply groupby_mean_distinct].
  unfold Artist.split_and_aggregate.
  rewrite iterrows_loop_ok by done. simpl. rewrite expand_single_labels by done.
  by destruct data.
Qed.

(** The same for the per-year summary, on any frame. *)
Lemma normalize_single_labels df :
  Forall (fun r => single_label (Genres.Genre r)) df ->
  NoDup (map Genres.Genre df) ->
  Genres.normalize df ≡ₚ df.
Proof.
  intros Hall Hnd. unfold Genres.normalize. rewrite explode_single_labels by done.
  apply groupby_agg_summary_distinct; [|done].
  eapply Forall_impl; [exact Hall|]. intros r. apply single_label_some.
Qed.

(** C9, at the input on which the code departs from it: the empty frame
    has only single-label rows, yet [split_and_aggregate] raises a
    [KeyError] on it instead of returning it. *)
Theorem split_and_aggregate_empty :
  Forall (fun r => single_label (Artist.Genre r)) [] /\
  NoDup (map Artist.Genre []) /\
  Artist.split_and_aggregate [] = Raise (KeyError "Genre").
Proof. split; [constructor|]. split; [constructor|]. reflexivity. Qed.

(** C8, at the input on which the code departs from it: a row whose genre
    is null makes [split_and_aggregate] raise an [AttributeError]. *)
Theorem split_and_aggregate_null_genre :
  Artist.split_and_aggregate [artist_pop; artist_null]
  = Raise (AttributeError "'NoneType' object has no attribute 'split'").
Proof. reflexivity. Qed.

(** ** What splitting does to the averages *)

Lemma split_and_aggregate_inv data out :
  Artist.split_and_aggregate data = Ok out ->
  Forall (fun r => Artist.Genre r <> None) data /\
  data <> [] /\
  out = Artist.groupby_mean (flat_map (fun r =>
          map (fun l => Artist.Row (Some l) (Artist.avg_popularity_artist r)
                          (Artist.avg_popularity_overall r))
              (genre_labels (Artist.Genre r))) data).
Proof.
  intros H. unfold Artist.split_and_aggregate in H.
  destruct (decide (Forall (fun r => Artist.Genre r <> None) data)) as [Hall|Hex].
  - split; [done|]. rewrite iterrows_loop_ok in H by done. simpl in H.
    destruct data as [|r data]; [done|]. split; [done|].
    by destruct (flat_map _ _); simplify_eq.
  - apply not_Forall_Exists in Hex; [|apply _].
    rewrite iterrows_loop_null in H; [done|].
    eapply Exists_impl; [exact Hex|]. intros r Hr. simpl in Hr.
    by destruct (Artist.Genre r); [destruct Hr|].
Qed.

Lemma contributions_of_group (f : Artist.row -> option Qc) l data :
  (forall x l', f (Artist.Row (Some l') (Artist.avg_popularity_artist x)
                      (Artist.avg_popularity_overall x)) = f x) ->
  map f (filter (fun x => Artist.Genre x = Some l)
           (flat_map (fun r =>
              map (fun l => Artist.Row (Some l) (Artist.avg_popularity_artist r)
                              (Artist.avg_popularity_overall r))
                  (genre_labels (Artist.Genre r))) data))
  = contributions f l data.
Proof.
  intros Hf. unfold contributions.
  induction data as [|x data IH]; simpl; [done|].
  rewrite filter_app, map_app, IH. f_equal.
  induction (genre_labels (Artist.Genre x)) as [|l' ls IHl]; simpl; [done|].
  rewrite !filter_cons. simpl.
  destruct (decide (Some l' = Some l)) as [[= ->]|Hne].
  - rewrite decide_True by done. simpl. by rewrite Hf, IHl.
  - rewrite decide_False by congruence. apply IHl.
Qed.

(** The labels of the table that [split_and_aggregate] returns. *)
Lemma groupby_mean_labels ex :
  map Artist.Genre (Artist.groupby_mean ex)
  = map Some (group_keys String.le (map Artist.Genre ex)).
Proof. unfold Artist.groupby_mean. rewrite map_map. done. Qed.

Lemma groupby_mean_labels_NoDup ex : NoDup (map Artist.Genre (Artist.groupby_mean ex)).
Proof.
  rewrite groupby_mean_labels. change (map Some ?l) with (Some <$> l).
  apply (NoDup_fmap_2 _). apply group_keys_NoDup.
Qed.

Lemma expanded_labels (data : list Artist.row) l :
  Some l ∈ map Artist.Genre (Artist.groupby_mean (flat_map (fun r =>
          map (fun l => Artist.Row (Some l) (Artist.avg_popularity_artist r)
                          (Artist.avg_popularity_overall r))
              (genre_labels (Artist.Genre r))) data))
  <-> exists x, x ∈ data /\ l ∈ genre_labels (Artist.Genre x).
Proof.
  rewrite groupby_mean_labels. change (map Some ?k) with (Some <$> k).
  rewrite (list_elem_of_fmap_inj _), group_keys_elem.
  change (map ?f ?k) with (f <$> k).
  rewrite list_elem_of_fmap. split.
  - intros (r & Hl & Hr). apply list_elem_of_In, in_flat_map in Hr as (x & Hx & Hr).
    apply list_elem_of_In in Hx, Hr. exists x. split; [done|].
    change (map ?f ?k) with (f <$> k) in Hr.
    apply list_elem_of_fmap in Hr as (l' & -> & Hl'). by simplify_eq/=.
  - intros (x & Hx & Hl).
    exists (Artist.Row (Some l) (Artist.avg_popularity_artist x)
                       (Artist.avg_popularity_overall x)).
    split; [done|]. apply list_elem_of_In, in_flat_map. exists x.
    split; [by apply list_elem_of_In|]. apply list_elem_of_In.
    change (map ?f ?k) with (f <$> k). apply list_elem_of_fmap. by exists l.
Qed.

(** C4, as amended: splitting a composite label into its component labels
    gives every component label one row of the table, copies the value of
    the source row to each of them, and mean-reduction gives every label the
    mean of the values so contributed to it; the overall average of the
    table is the same before and after when every row carries one label and
    the labels are all different, and is not conserved in general. *)
Theorem split_redistributes :
  (forall data out,
     Artist.split_and_aggregate data = Ok out ->
     NoDup (map Artist.Genre out) /\
     (forall l, Some l ∈ map Artist.Genre out <->
                exists x, x ∈ data /\ l ∈ genre_labels (Artist.Genre x)) /\
     Forall (fun r => exists l,
       Artist.Genre r = Some l /\
       Artist.avg_popularity_artist r
       = mean (contributions Artist.avg_popularity_artist l data) /\
       Artist.avg_popularity_overall r
       = mean (contributions Artist.avg_popularity_overall l data)) out) /\
  (forall data out,
     Artist.split_and_aggregate data = Ok out ->
     Forall (fun r => single_label (Artist.Genre r)) data ->
     NoDup (map Artist.Genre data) ->
     mean (map Artist.avg_popularity_artist out)
     = mean (map Artist.avg_popularity_artist data) /\
     mean (map Artist.avg_popularity_overall out)
     = mean (map Artist.avg_popularity_overall data)).
Proof.
  split.
  - intros data out (_ & _ & ->)%split_and_aggregate_inv.
    split; [apply groupby_mean_labels_NoDup|]. split; [apply expanded_labels|].
    rewrite groupby_mean_rows. apply Forall_forall. intros r Hr.
    change (map ?f (group_keys ?le ?ks)) with (f <$> group_keys le ks) in Hr.
    apply list_elem_of_fmap in Hr as (l & -> & _). exists l. simpl.
    by rewrite !contributions_of_group.
  - intros data out Hrun Hall Hnd.
    pose proof Hrun as (_ & Hne & _)%split_and_aggregate_inv.
    destruct (split_and_aggregate_single_labels data Hne Hall Hnd)
      as (out' & Hrun' & Hperm).
    rewrite Hrun in Hrun'. simplify_eq.
    split; apply mean_Permutation;
      change (map ?f ?k) with (f <$> k); by rewrite Hperm.
Qed.

(** C4, the claim as stated, fails: a row "Pop, Rock" of popularity 80 and
    a row "Pop" of popularity 60 average 70, their normalised table (Pop 70,
    Rock 80) averages 75. *)
Lemma overall_average_not_conserved :
  ~ conserves_overall_average [artist_pop_rock; artist_pop].
Proof.
  intros H. destruct (H _ eq_refl) as [H1 _].
  vm_compute in H1. discriminate H1.
Qed.

(** ** Rows in sorted order *)

Section take_rows_facts.
Context {A : Type}.
Implicit Types (l : list A) (order : list nat).

Lemma take_rows_elem order l x :
  x ∈ take_rows order l <-> exists i, i ∈ order /\ l !! i = Some x.
Proof. unfold take_rows. apply list_elem_of_omap. Qed.

(** A permutation of the row positions lists every row. *)
Lemma take_rows_perm_elem order l x :
  order ≡ₚ seq 0 (length l) -> x ∈ take_rows order l <-> x ∈ l.
Proof.
  intros Hp. rewrite take_rows_elem, list_elem_of_lookup. split.
  - intros (i & _ & Hi). by exists i.
  - intros (i & Hi). exists i. split; [|done].
    rewrite Hp. apply elem_of_seq. apply lookup_lt_Some in Hi. lia.
Qed.

Lemma take_rows_sorted (R : relation nat) (R' : relation A) order l :
  (forall i j x y, l !! i = Some x -> l !! j = Some y -> R i j -> R' x y) ->
  StronglySorted R order -> StronglySorted R' (take_rows order l).
Proof.
  intros HR. induction 1 as [|i order Hs IH Hi]; simpl; [constructor|].
  destruct (l !! i) as [x|] eqn:Hx; [|done]. constructor; [done|].
  apply Forall_forall. intros y (j & Hj & Hy)%take_rows_elem.
  rewrite Forall_forall in Hi. by eapply HR; [..|apply Hi].
Qed.

(** A split of the sorted rows is a split of the positions. *)
Lemma take_rows_app_inv order l pre x post :
  take_rows order l = (pre ++ x :: post)%list ->
  exists o1 j o2,
    order = (o1 ++ j :: o2)%list /\ take_rows o1 l = pre /\ l !! j = Some x.
Proof.
  revert pre. induction order as [|i order IH]; intros pre; simpl.
  - by destruct pre.
  - destruct (l !! i) as [y|] eqn:Hy.
    + destruct pre as [|z pre]; simpl; intros [= -> Heq].
      * by exists [], i, order.
      * destruct (IH _ Heq) as (o1 & j & o2 & -> & <- & Hj).
        exists (i :: o1), j, o2. simpl. by rewrite Hy.
    + intros Heq. destruct (IH _ Heq) as (o1 & j & o2 & -> & <- & Hj).
      exists (i :: o1), j, o2. simpl. by rewrite Hy.
Qed.

End take_rows_facts.

(** ** The first rows without duplicates *)

Section selection_facts.
Context {A : Type} `{EqDecision A}.
Implicit Types (l seen : list A) (x : A).

Lemma take_drop_duplicates_inv seen l n x :
  x ∈ take n (drop_duplicates_go seen l) ->
  exists pre post,
    l = (pre ++ x :: post)%list /\
    (length (drop_duplicates_go seen pre) < n)%nat.
Proof.
  revert seen n. induction l as [|y l IH]; intros seen n; simpl.
  - rewrite take_nil. by intros ?%elem_of_nil.
  - case_bool_decide as Hy.
    + intros (pre & post & -> & Hlen)%IH. exists (y :: pre), post. simpl.
      by rewrite bool_decide_eq_true_2.
    + destruct n as [|n]; simpl; [by intros ?%elem_of_nil|].
      intros [->|Hx]%elem_of_cons.
      * exists [], l. simpl. split; [done | lia].
      * apply IH in Hx as (pre & post & -> & Hlen). exists (y :: pre), post.
        simpl. rewrite bool_decide_eq_false_2 by done. simpl. split; [done | lia].
Qed.

Lemma take_drop_duplicates_intro seen pre post n x :
  x ∈ pre -> x ∉ seen ->
  (length (drop_duplicates_go seen pre) < n)%nat ->
  x ∈ take n (drop_duplicates_go seen (pre ++ post)).
Proof.
  revert seen n. induction pre as [|y pre IH]; intros seen n; simpl.
  - by intros ?%elem_of_nil.
  - intros Hx Hseen. case_bool_decide as Hy.
    + intros Hlen. apply IH; [|done..].
      apply elem_of_cons in Hx as [->|?]; done.
    + simpl. destruct n as [|n]; [lia|]. intros Hlen. simpl.
      apply elem_of_cons. destruct (decide (x = y)) as [->|Hne]; [by left|].
      right. apply IH.
      * apply elem_of_cons in Hx as [?|?]; done.
      * rewrite elem_of_cons. tauto.
      * lia.
Qed.

End selection_facts.

(** ** The selection of the top artists *)

Lemma transform_mean_length (names : list (option key)) values :
  length (transform_mean key_le names values) = length names.
Proof. unfold transform_mean. apply length_map. Qed.

Lemma key_at_transform_mean (names : list (option key)) values i a :
  names !! i = Some a ->
  key_at (transform_mean key_le names values) i = artist_avg names values a.
Proof.
  intros Hi. unfold key_at. by rewrite transform_mean_lookup, Hi.
Qed.

Lemma head_nonneg {A} (n : Z) (l : list A) : 0 <= n -> head n l = take (Z.to_nat n) l.
Proof. intros Hn. unfold head. by rewrite (proj2 (Z.leb_le 0 n)). Qed.

(** The selection, for any routine that sorts the column of averages. *)
Lemma top_artist_names_spec argsort (names : list (option key)) values top_n :
  let avg := transform_mean key_le names values in
  let top := top_artist_names argsort names avg top_n in
  let G := artist_avg names values in
  sorts_descending argsort avg -> 0 <= top_n ->
  StronglySorted (fun a b => desc_ge (G a) (G b)) top /\
  (forall a b, a ∈ top -> b ∈ names -> b ∉ top -> desc_ge (G a) (G b)) /\
  NoDup top /\
  (forall a, a ∈ top -> a ∈ names) /\
  length top = Nat.min (Z.to_nat top_n) (length (drop_duplicates names)) /\
  ((length (drop_duplicates names) <= Z.to_nat top_n)%nat ->
   forall a, a ∈ names -> a ∈ top).
Proof.
  intros avg top G [Hp Hs] Hn. subst top. unfold top_artist_names.
  rewrite head_nonneg by done.
  unfold avg in Hp at 2. rewrite transform_mean_length in Hp.
  set (L := take_rows (argsort avg) names).
  set (D := drop_duplicates L). set (n := Z.to_nat top_n).
  assert (forall a, a ∈ L <-> a ∈ names) as HL
    by (intros a; by apply take_rows_perm_elem).
  assert (forall a, a ∈ D <-> a ∈ names) as HD
    by (intros a; unfold D; by rewrite drop_duplicates_elem).
  assert (StronglySorted (fun a b => desc_ge (G a) (G b)) D) as HDs.
  { apply (StronglySorted_sublist _ D L); [apply drop_duplicates_go_sublist|].
    eapply take_rows_sorted; [|exact Hs]. simpl. intros i j x y Hi Hj.
    unfold avg.
    by rewrite (key_at_transform_mean _ _ _ _ Hi), (key_at_transform_mean _ _ _ _ Hj). }
  assert (NoDup D) as HDn by apply drop_duplicates_NoDup.
  assert (forall a, a ∈ take n D -> a ∈ D) as Htake.
  { intros a (i & Hi & _)%elem_of_take. by eapply list_elem_of_lookup_2. }
  split; [|split; [|split; [|split; [|split]]]].
  - by apply (StronglySorted_sublist _ (take n D) D); [apply sublist_take|].
  - intros a b Ha Hb Hnb.
    rewrite <- (take_drop n D) in HDs.
    eapply (StronglySorted_app_1_elem_of _ _ _ _ _ HDs); [done|].
    apply HD in Hb. rewrite <- (take_drop n D) in Hb.
    by apply elem_of_app in Hb as [?|?].
  - eapply sublist_NoDup; [done | apply sublist_take].
  - intros a Ha. by apply HD, Htake.
  - rewrite length_take. f_equal. apply Permutation_length.
    apply NoDup_Permutation; [done | apply drop_duplicates_NoDup|].
    intros a. by rewrite HD, drop_duplicates_elem.
  - intros Hlen a Ha. rewrite take_ge; [by apply HD|].
    etrans; [|exact Hlen]. apply Nat.eq_le_incl, Permutation_length.
    apply NoDup_Permutation; [done | apply drop_duplicates_NoDup|].
    intros b. by rewrite HD, drop_duplicates_elem.
Qed.

(** With a stable routine, a tie goes to the artist seen first. *)
Lemma stable_first_seen argsort (names : list (option key)) values top_n :
  let avg := transform_mean key_le names values in
  sorts_descending argsort avg -> sorts_stably argsort avg -> 0 <= top_n ->
  first_seen_wins argsort names values top_n.
Proof.
  intros avg [Hp _] Hst Hn a b (i & Hi & Hlt) Htie Hb.
  unfold top_artist_names in *. rewrite head_nonneg in * by done.
  unfold avg in Hp at 2. rewrite transform_mean_length in Hp.
  fold avg in Hb |- *. unfold drop_duplicates in *.
  apply take_drop_duplicates_inv in Hb as (pre & post & HL & Hlen).
  rewrite HL. apply take_drop_duplicates_intro; [|apply not_elem_of_nil|done].
  apply take_rows_app_inv in HL as (o1 & j & o2 & Ho & <- & Hj).
  apply take_rows_elem. exists i. split; [|done].
  assert (i ∈ argsort avg) as Hin.
  { rewrite Hp. apply elem_of_seq. apply lookup_lt_Some in Hi. lia. }
  rewrite Ho in Hin. apply elem_of_app in Hin as [?|Hin]; [done|].
  exfalso. specialize (Hlt j Hj).
  apply elem_of_cons in Hin as [->|Hin]; [lia|].
  unfold sorts_stably in Hst. rewrite Ho in Hst.
  apply StronglySorted_app_1_r, StronglySorted_cons in Hst as [Hall _].
  rewrite Forall_forall in Hall. specialize (Hall i Hin). unfold avg in Hall.
  rewrite (key_at_transform_mean _ _ _ _ Hi), (key_at_transform_mean _ _ _ _ Hj) in Hall.
  specialize (Hall (eq_sym Htie)). lia.
Qed.

Lemma getitem_mask_frame m df c s :
  getitem df c = Ok s -> getitem (mask_frame m df) c = Ok (mask_series m s).
Proof.
  induction df as [|[c' s'] df IH]; simpl; [done|].
  destruct (String.eqb c' c); [by intros [= ->] | done].
Qed.

Lemma mask_frame_names m (df : DataFrame) : (mask_frame m df).*1 = df.*1.
Proof.
  unfold mask_frame. induction df as [|[c s] df IH]; csimpl; [done|].
  by rewrite <- IH.
Qed.

(** The mask of [isin] keeps the rows whose name is selected. *)
Lemma mask_list_isin {A B} `{EqDecision A} (names sel : list A) (l : list B) :
  mask_list (isin names sel) l = (filter (fun p => p.1 ∈ sel) (zip names l)).*2.
Proof.
  unfold mask_list, isin. revert l.
  induction names as [|x names IH]; intros [|y l]; simpl; try done.
  rewrite !filter_cons. simpl. case_bool_decide as Hx.
  - rewrite decide_True by done. rewrite decide_True by done. csimpl.
    f_equal. apply IH.
  - rewrite decide_False by done. rewrite decide_False by done. apply IH.
Qed.

(** C2: [get_top_artists] gives every row the mean of the rank values of
    all rows of its artist as [avg_rank_value]; it selects the first
    [top_n] artists in the order of decreasing [avg_rank_value] (no
    unselected artist has a larger one), without duplicates, so at most
    [top_n] of them and all artists when there are no more than [top_n];
    and the frame it returns has the columns of the caller's frame, each
    holding exactly the cells of the rows whose artist is selected, in the
    order of the frame and whatever their year. *)
Theorem top_n_selection argsort (w : world) (data : loc) (top_n : Z)
    by_name rank_value values :
  getitem (heap w data) "ArtistName" = Ok by_name ->
  getitem (heap w data) "rank_value" = Ok rank_value ->
  to_numeric rank_value = Ok values ->
  let names := keys_of by_name in
  let avg := transform_mean key_le names values in
  let top := top_artist_names argsort names avg top_n in
  let G := artist_avg names values in
  sorts_descending argsort avg ->
  0 <= top_n ->
  (data < next w)%nat ->
  exists w',
    get_top_artists argsort data top_n w = Ok (next w, w') /\
    getitem (heap w' data) "avg_rank_value" = Ok (Float64Series avg) /\
    (forall i a, names !! i = Some a -> avg !! i = Some (G a)) /\
    StronglySorted (fun a b => desc_ge (G a) (G b)) top /\
    (forall a b, a ∈ top -> b ∈ names -> b ∉ top -> desc_ge (G a) (G b)) /\
    NoDup top /\
    (forall a, a ∈ top -> a ∈ names) /\
    (length top <= Z.to_nat top_n)%nat /\
    length top = Nat.min (Z.to_nat top_n) (length (drop_duplicates names)) /\
    ((length (drop_duplicates names) <= Z.to_nat top_n)%nat ->
     forall a, a ∈ names -> a ∈ top) /\
    (heap w' (next w)).*1 = (heap w' data).*1 /\
    (forall c s,
       c <> "avg_rank_value" ->
       getitem (heap w data) c = Ok s ->
       exists s',
         getitem (heap w' (next w)) c = Ok s' /\ column_of_artists names top s s') /\
    getitem (heap w' (next w)) "avg_rank_value"
    = Ok (Float64Series (rows_of_artists names top avg)).
Proof.
  intros Hn Hr Hv names avg top G Hsort Htop Hdata.
  assert (next w <> data) as Hne by lia.
  destruct (top_artist_names_spec argsort names values top_n Hsort Htop)
    as (Hsorted & Hbest & Hnodup & Hsub & Hlen & Hall).
  eexists. split; [by apply (get_top_artists_run _ _ _ _ _ _ _ Hn Hr Hv)|].
  simpl. repeat split; try done.
  - rewrite fn_lookup_insert_ne, fn_lookup_insert by done.
    apply getitem_setitem_eq.
  - intros i a Hi. unfold avg. by rewrite transform_mean_lookup, Hi.
  - subst top avg names. rewrite Hlen. lia.
  - rewrite fn_lookup_insert, fn_lookup_insert_ne, fn_lookup_insert by done.
    apply mask_frame_names.
  - intros c s Hc Hs. rewrite fn_lookup_insert.
    exists (mask_series (isin names top) s). split.
    + apply getitem_mask_frame. by rewrite getitem_setitem_ne.
    + destruct s; simpl; apply mask_list_isin.
  - rewrite fn_lookup_insert.
    rewrite (getitem_mask_frame _ _ _ _ (getitem_setitem_eq _ _ _)). simpl.
    f_equal. f_equal. apply mask_list_isin.
Qed.

(** ** Ties *)

(** C5, as amended: among artists of equal [avg_rank_value] the selection
    follows the order in which the sorting routine leaves equal keys, which
    [sort_values] does not fix. Whatever the routine, no artist is selected
    while an artist of larger [avg_rank_value] is left out; and when the
    routine is stable, the tie goes to the artist seen first. *)
Theorem tie_breaking argsort (names : list (option key)) values (top_n : Z) :
  let avg := transform_mean key_le names values in
  let top := top_artist_names argsort names avg top_n in
  let G := artist_avg names values in
  sorts_descending argsort avg ->
  0 <= top_n ->
  (forall a b, a ∈ top -> b ∈ names -> b ∉ top -> desc_ge (G a) (G b)) /\
  (sorts_stably argsort avg -> first_seen_wins argsort names values top_n).
Proof.
  intros avg top G Hsort Hn. split.
  - by apply (top_artist_names_spec argsort names values top_n Hsort Hn).
  - intros Hst. by apply stable_first_seen.
Qed.

(** On eighteen rows of equal key the kernel partitions once. The pivot
    is the middle element; both scans stop at every element, as none is
    less than the pivot, and swap the elements they stop at, which reverses
    positions 1 to 15 of the (reversed) index array. In the order of the
    sorted frame rows 2 to 16 come out reversed. On two rows the kernel is
    an insertion sort and the rows stay as they are. *)
Lemma nargsort_ties aheapsort :
  nargsort aheapsort tie18_values
  = [0; 1; 16; 15; 14; 13; 12; 11; 10; 9; 8; 7; 6; 5; 4; 3; 2; 17]%nat /\
  nargsort aheapsort tie_values = [0; 1]%nat.
Proof. split; vm_compute; reflexivity. Qed.

(** C5, the claim as stated, fails: of eighteen artists A to R with the same
    average, [sort_values] with the default kind puts the rows in the order
    A, B, Q, P, O, ..., so the first five artists are A, B, Q, P and O:
    Q is selected and C, seen before Q, is not. *)
Lemma tie_not_by_input_order :
  ~ exists aheapsort, first_seen_wins (nargsort aheapsort) tie18_names tie18_values 5.
Proof.
  intros [aheapsort H].
  specialize (H (Some (KStr "C")) (Some (KStr "Q"))).
  assert (~ Some (KStr "C") ∈ top_artist_names (nargsort aheapsort) tie18_names
              (transform_mean key_le tie18_names tie18_values) 5) as Hnot
    by (apply (bool_decide_unpack _); vm_compute; exact I).
  apply Hnot, H.
  - exists 2%nat. split; [done|]. intros j Hj.
    do 17 (destruct j as [|j]; [simplify_eq/=; try lia|]).
    destruct j; simplify_eq/=.
  - apply (bool_decide_unpack _). vm_compute. exact I.
  - apply (bool_decide_unpack _). vm_compute. exact I.
Qed.

(** ** Instances *)

Lemma in_place_frame_effect_witness :
  exists w1 r w2,
    calculate_rank_value 0%nat half half (world_of frame_AB) = Ok (0%nat, w1) /\
    get_top_artists stable_argsort 0%nat 5 w1 = Ok (r, w2) /\
    r <> 0%nat /\
    getitem (heap w1 0%nat) "num_songs"
    = getitem (heap (world_of frame_AB) 0%nat) "num_songs" /\
    getitem (heap w2 0%nat) "rank_value" = getitem (heap w1 0%nat) "rank_value".
Proof.
  eexists _, _, _. split; [reflexivity|].
  split; [eapply get_top_artists_run; reflexivity|].
  split; [|split].
  - eapply (proj2 (in_place_frame_effect stable_argsort _ 0%nat) 5); cycle 1.
    + eapply get_top_artists_run; reflexivity.
    + unfold world_of. simpl. lia.
  - eapply (proj1 (in_place_frame_effect stable_argsort (world_of frame_AB) 0%nat)
              half half); [reflexivity | done].
  - eapply (proj2 (in_place_frame_effect stable_argsort _ 0%nat) 5); cycle 1.
    + eapply get_top_artists_run; reflexivity.
    + done.
    + unfold world_of. simpl. lia.
Defined.

Lemma rank_value_formula_witness :
  exists w' rv,
    calculate_rank_value 0%nat half half (world_of frame_AB) = Ok (0%nat, w') /\
    getitem (heap w' 0%nat) "rank_value" = Ok (Float64Series rv) /\
    length rv = 2%nat /\
    rv !! 1%nat = Some (Some (half * Qc_of_Z 5 + half * qc 90 1)%Qc).
Proof.
  destruct (proj1 rank_value_formula (world_of frame_AB) 0%nat half half
              [10; 5] [Some (qc 50 1); Some (qc 90 1)] eq_refl eq_refl)
    as (w' & rv & Hrun & Hcol & Hlen & Hrow).
  exists w', rv. repeat split; [done..|].
  by apply (Hrow 1%nat 5 (qc 90 1)).
Defined.

Lemma empty_result_no_data_witness :
  get_top_5_artists_by_year_range stable_argsort (fun _ _ => []) 2000 2001 initial
  = Ok (None, World (<[0%nat:=[]]> (heap initial)) 1
                [Print "No data found for the years 2000-2001."]) /\
  Genres.fetch_year_summary_and_plot (fun _ => []) 2010
  = [Genres.Print "No data available for the year 2010."].
Proof.
  destruct (empty_result_no_data stable_argsort (fun _ _ => []) (fun _ => [])
              2000 2001 2010 initial) as [H1 H2].
  split; [apply (H1 eq_refl) | apply (H2 eq_refl)].
Defined.

Lemma genre_normalizer_contract_witness :
  Genres.explode [summary_pop_rock; summary_pop]
  = [Genres.with_genre summary_pop_rock (Some "Pop");
     Genres.with_genre summary_pop_rock (Some "Rock");
     Genres.with_genre summary_pop (Some "Pop")].
Proof.
  rewrite (proj1 genre_normalizer_contract [summary_pop_rock; summary_pop]).
  - reflexivity.
  - repeat constructor; simpl; discriminate.
Defined.

Lemma split_redistributes_witness :
  (exists out,
     Artist.split_and_aggregate [artist_pop_rock; artist_pop] = Ok out /\
     Some "Rock" ∈ map Artist.Genre out /\
     Forall (fun r => exists l,
       Artist.Genre r = Some l /\
       Artist.avg_popularity_artist r
       = mean (contributions Artist.avg_popularity_artist l
                 [artist_pop_rock; artist_pop]) /\
       Artist.avg_popularity_overall r
       = mean (contributions Artist.avg_popularity_overall l
                 [artist_pop_rock; artist_pop])) out) /\
  (exists out,
     Artist.split_and_aggregate [artist_rock; artist_pop] = Ok out /\
     mean (map Artist.avg_popularity_artist out)
     = mean (map Artist.avg_popularity_artist [artist_rock; artist_pop])).
Proof.
  split.
  - eexists. split; [reflexivity|].
    destruct (proj1 split_redistributes [artist_pop_rock; artist_pop] _ eq_refl)
      as (_ & Hlabels & Hrows).
    split; [|exact Hrows].
    apply Hlabels. exists artist_pop_rock. split; [by left|].
    apply (bool_decide_unpack _). vm_compute. exact I.
  - eexists. split; [reflexivity|].
    apply (proj2 split_redistributes [artist_rock; artist_pop]).
    + reflexivity.
    + repeat constructor; [by exists "Rock" | by exists "Pop"].
    + apply (bool_decide_unpack _). vm_compute. exact I.
Defined.

Lemma top_n_selection_witness :
  exists w',
    get_top_artists stable_argsort 0%nat 1 (world_of frame_years) = Ok (1%nat, w') /\
    getitem (heap w' 0%nat) "avg_rank_value"
    = Ok (Float64Series [Some (qc 50 1); Some (qc 95 2); Some (qc 50 1)]) /\
    getitem (heap w' 1%nat) "ArtistName" = Ok (ObjectSeries [Some "A"; Some "A"]) /\
    getitem (heap w' 1%nat) "Year" = Ok (Int64Series [2000; 2001]) /\
    getitem (heap w' 1%nat) "rank_value"
    = Ok (Float64Series [Some (qc 30 1); Some (qc 70 1)]).
Proof.
  destruct (top_n_selection stable_argsort (world_of frame_years) 0%nat 1
              (ObjectSeries [Some "A"; Some "B"; Some "A"])
              (Float64Series [Some (qc 30 1); Some (qc 95 2); Some (qc 70 1)])
              [Some (qc 30 1); Some (qc 95 2); Some (qc 70 1)]
              eq_refl eq_refl eq_refl)
    as (w' & Hrun & Havg & _ & _ & _ & _ & _ & _ & _ & _ & _ & Hrows & _).
  - apply insertion_argsort_sorts.
  - lia.
  - unfold world_of. simpl. lia.
  - exists w'. split; [exact Hrun|]. split.
    { rewrite Havg. do 2 f_equal; try (apply (bool_decide_unpack _); vm_compute; exact I). }
    split; [|split].
    + destruct (Hrows "ArtistName" _ ltac:(done) eq_refl) as (s' & Hget & Hs').
      etrans; [exact Hget|]. destruct s'; try contradiction.
      simpl in Hs'. rewrite Hs'. do 2 f_equal;
        try (apply (bool_decide_unpack _); vm_compute; exact I).
    + destruct (Hrows "Year" _ ltac:(done) eq_refl) as (s' & Hget & Hs').
      etrans; [exact Hget|]. destruct s'; try contradiction.
      simpl in Hs'. rewrite Hs'. do 2 f_equal;
        try (apply (bool_decide_unpack _); vm_compute; exact I).
    + destruct (Hrows "rank_value" _ ltac:(done) eq_refl) as (s' & Hget & Hs').
      etrans; [exact Hget|]. destruct s'; try contradiction.
      simpl in Hs'. rewrite Hs'. do 2 f_equal;
        try (apply (bool_decide_unpack _); vm_compute; exact I).
Defined.

Lemma tie_breaking_witness :
  first_seen_wins stable_argsort tie_names tie_values 1.
Proof.
  apply (tie_breaking stable_argsort tie_names tie_values 1).
  - apply insertion_argsort_sorts.
  - lia.
  - apply stable_argsort_stable.
Defined.

(** * Further properties *)

(** ** Splitting and joining *)

Lemma string_app_assoc (a b c : string) : ((a ++ b) ++ c = a ++ (b ++ c))%string.
Proof.
  induction a as [|x a IH]; [done|].
  change (String x ((a ++ b) ++ c) = String x (a ++ (b ++ c)))%string.
  by rewrite IH.
Qed.

Lemma string_app_length (a b : string) :
  String.length (a ++ b) = (String.length a + String.length b)%nat.
Proof.
  induction a as [|x a IH]; [done|].
  change (S (String.length (a ++ b)) = S (String.length a + String.length b)).
  by rewrite IH.
Qed.

Lemma prefix_app_inv sep s :
  String.prefix sep s = true -> exists t, s = (sep ++ t)%string.
Proof.
  revert s. induction sep as [|a sep IH]; intros s; simpl.
  - by exists s.
  - destruct s as [|b s]; simpl; [done|].
    destruct (ascii_dec a b) as [->|]; [|done].
    intros (t & ->)%IH. by exists t.
Qed.

Lemma split_go_skip sep t cur s :
  split_go sep (String.length t) cur (t ++ s) = split_go sep 0 cur s.
Proof. induction t as [|c t IH]; [done|]. exact IH. Qed.

Lemma concat_cons sep x xs :
  xs <> [] -> String.concat sep (x :: xs) = (x ++ sep ++ String.concat sep xs)%string.
Proof. by destruct xs. Qed.

Lemma split_go_join sep n s cur :
  sep <> EmptyString -> (String.length s <= n)%nat ->
  String.concat sep (split_go sep 0 cur s) = (cur ++ s)%string.
Proof.
  intros Hsep. revert s cur. induction n as [|n IH]; intros s cur Hlen.
  - destruct s; simpl in Hlen; [|lia]. simpl.
    clear. induction cur as [|x cur IH]; [done|].
    change (String x cur = String x (cur ++ ""))%string. by rewrite <- IH.
  - destruct s as [|c s'].
    { simpl. clear. induction cur as [|x cur IH]; [done|].
      change (String x cur = String x (cur ++ ""))%string. by rewrite <- IH. }
    change (split_go sep 0 cur (String c s'))
      with (if String.prefix sep (String c s')
            then cur :: split_go sep (String.length sep - 1) EmptyString s'
            else split_go sep 0 (cur ++ String c EmptyString) s').
    destruct (String.prefix sep (String c s')) eqn:Hp.
    + apply prefix_app_inv in Hp as (t & Ht).
      destruct sep as [|a sep']; [done|].
      change (String c s' = String a (sep' ++ t))%string in Ht.
      injection Ht as -> ->.
      change (String.length (String a sep') - 1)%nat with (String.length sep' - 0)%nat.
      rewrite Nat.sub_0_r, split_go_skip.
      rewrite concat_cons by apply split_go_nonempty.
      rewrite IH.
      * done.
      * simpl in Hlen. rewrite string_app_length in Hlen. lia.
    + rewrite IH by (simpl in Hlen; lia). by rewrite string_app_assoc.
Qed.

(** X1: joining the pieces of [s.split(sep)] with [sep] gives [s] back: a
    split loses no character of the genre field. *)
Theorem split_join (s sep : string) :
  sep <> EmptyString -> String.concat sep (split s sep) = s.
Proof. intros Hsep. by apply (split_go_join sep (String.length s)). Qed.

(** ** Outcomes of [split_and_aggregate] *)

Lemma groupby_mean_nonempty rows : rows <> [] ->
  Forall (fun r => Artist.Genre r <> None) rows -> Artist.groupby_mean rows <> [].
Proof.
  intros Hne Hall. destruct rows as [|r rows]; [done|].
  apply Forall_cons in Hall as [Hr _].
  destruct (Artist.Genre r) as [g|] eqn:Hg; [|done].
  assert (g ∈ group_keys String.le (map Artist.Genre (r :: rows))) as Hin.
  { apply group_keys_elem. simpl. rewrite Hg. apply elem_of_cons. by left. }
  rewrite groupby_mean_rows. intros Hnil.
  destruct (group_keys String.le _); [by apply elem_of_nil in Hin | done].
Qed.

Lemma split_and_aggregate_outcome_aux (data : list Artist.row) :
  match Artist.split_and_aggregate data with
  | Ok out =>
      data <> [] /\ Forall (fun r => Artist.Genre r <> None) data /\ out <> []
  | Raise e =>
      (e = AttributeError "'NoneType' object has no attribute 'split'" /\
       Exists (fun r => Artist.Genre r = None) data) \/
      (e = KeyError "Genre" /\ data = [])
  end.
Proof.
  destruct (decide (Forall (fun r => Artist.Genre r <> None) data)) as [Hall|Hex].
  - unfold Artist.split_and_aggregate. rewrite iterrows_loop_ok by done. simpl.
    destruct data as [|r data]; simpl; [by right|].
    pose proof Hall as [Hr Hall']%Forall_cons.
    destruct (Artist.Genre r) as [g|] eqn:Hg; [|done]. simpl.
    pose proof (split_nonempty g ", ") as Hne.
    destruct (split g ", ") as [|l ls] eqn:Hs; [done|]. simpl.
    split; [done|]. split; [done|].
    set (rows := _ :: _).
    apply (groupby_mean_nonempty rows); [done|].
    pose proof (iterrows_loop_ok (r :: data) [] Hall) as Hloop. simpl in Hloop.
    rewrite Hg in Hloop. simpl in Hloop. rewrite Hs in Hloop. simpl in Hloop.
    subst rows. clear -Hall'. constructor; [done|].
    apply Forall_app. split.
    + apply Forall_forall. intros x Hx.
      change (map ?f ?k) with (f <$> k) in Hx.
      by apply list_elem_of_fmap in Hx as (? & -> & _).
    + induction Hall' as [|x data Hx _ IH]; simpl; [constructor|].
      apply Forall_app. split; [|done].
      apply Forall_forall. intros y Hy.
      change (map ?f ?k) with (f <$> k) in Hy.
      by apply list_elem_of_fmap in Hy as (? & -> & _).
  - apply not_Forall_Exists in Hex; [|apply _].
    assert (Exists (fun r => Artist.Genre r = None) data) as Hnull.
    { eapply Exists_impl; [exact Hex|]. intros r Hr. simpl in Hr.
      by destruct (Artist.Genre r); [destruct Hr|]. }
    unfold Artist.split_and_aggregate. rewrite iterrows_loop_null by done.
    by left.
Qed.

(** X2: [split_and_aggregate] has three outcomes. It raises an
    [AttributeError] when some row has a null genre (also on a frame that
    would otherwise be fine), a [KeyError] when the frame has no row, and
    otherwise returns a frame that has at least one row. *)
Theorem split_and_aggregate_outcome (data : list Artist.row) :
  match Artist.split_and_aggregate data with
  | Ok out =>
      data <> [] /\ Forall (fun r => Artist.Genre r <> None) data /\ out <> []
  | Raise e =>
      (e = AttributeError "'NoneType' object has no attribute 'split'" /\
       Exists (fun r => Artist.Genre r = None) data) \/
      (e = KeyError "Genre" /\ data = [])
  end.
Proof. exact (split_and_aggregate_outcome_aux data). Qed.

(** ** Order of the normalised rows *)

Lemma group_keys_sorted (ks : list (option string)) :
  StronglySorted String.le (group_keys String.le ks).
Proof. unfold group_keys. apply StronglySorted_merge_sort; apply _. Qed.

Lemma normalised_rows_sorted_aux :
  (forall df, exists labels,
     map Genres.Genre (Genres.normalize df) = map Some labels /\
     StronglySorted String.le labels /\ NoDup labels) /\
  (forall data out, Artist.split_and_aggregate data = Ok out ->
     exists labels,
       map Artist.Genre out = map Some labels /\
       StronglySorted String.le labels /\ NoDup labels).
Proof.
  split.
  - intros df. unfold Genres.normalize. rewrite groupby_agg_summary_rows.
    eexists. split; [by rewrite map_map|].
    split; [apply group_keys_sorted | apply group_keys_NoDup].
  - intros data out (_ & _ & ->)%split_and_aggregate_inv.
    rewrite groupby_mean_rows.
    eexists. split; [by rewrite map_map|].
    split; [apply group_keys_sorted | apply group_keys_NoDup].
Qed.

(** X3: both normalisers list their rows by increasing label, every label
    once ([groupby] sorts its keys). *)
Theorem normalised_rows_sorted :
  (forall df, exists labels,
     map Genres.Genre (Genres.normalize df) = map Some labels /\
     StronglySorted String.le labels /\ NoDup labels) /\
  (forall data out, Artist.split_and_aggregate data = Ok out ->
     exists labels,
       map Artist.Genre out = map Some labels /\
       StronglySorted String.le labels /\ NoDup labels).
Proof. exact normalised_rows_sorted_aux. Qed.

Lemma normalised_rows_sorted_witness :
  exists labels,
    Artist.split_and_aggregate [artist_pop_rock; artist_pop]
    = Ok [Artist.Row (Some "Pop") (Some (qc 70 1)) (Some (qc 70 1));
          Artist.Row (Some "Rock") (Some (qc 80 1)) (Some (qc 80 1))] /\
    map Some ["Pop"; "Rock"] = map Some labels /\
    StronglySorted String.le labels.
Proof.
  assert (Artist.split_and_aggregate [artist_pop_rock; artist_pop]
          = Ok [Artist.Row (Some "Pop") (Some (qc 70 1)) (Some (qc 70 1));
                Artist.Row (Some "Rock") (Some (qc 80 1)) (Some (qc 80 1))]) as Hrun
    by (apply (bool_decide_unpack _); vm_compute; exact I).
  destruct (proj2 normalised_rows_sorted _ _ Hrun) as (labels & Hl & Hs & _).
  exists labels. by repeat split.
Defined.

(** X4: on rows that carry one label each, all different, normalising
    changes nothing but the order of the rows: [split_and_aggregate] on a
    frame that has a row, the per-year summary on any frame. *)
Theorem normaliser_keeps_single_labels :
  (forall data,
     data <> [] ->
     Forall (fun r => single_label (Artist.Genre r)) data ->
     NoDup (map Artist.Genre data) ->
     exists out, Artist.split_and_aggregate data = Ok out /\ out ≡ₚ data) /\
  (forall df,
     Forall (fun r => single_label (Genres.Genre r)) df ->
     NoDup (map Genres.Genre df) ->
     Genres.normalize df ≡ₚ df).
Proof.
  split; [exact split_and_aggregate_single_labels | exact normalize_single_labels].
Qed.

Lemma normaliser_keeps_single_labels_witness :
  (exists out,
     Artist.split_and_aggregate [artist_rock; artist_pop] = Ok out /\
     out ≡ₚ [artist_rock; artist_pop]) /\
  Genres.normalize [summary_rock; summary_pop] ≡ₚ [summary_rock; summary_pop].
Proof.
  split.
  - apply (proj1 normaliser_keeps_single_labels [artist_rock; artist_pop]).
    + done.
    + repeat constructor; [by exists "Rock" | by exists "Pop"].
    + apply (bool_decide_unpack _). vm_compute. exact I.
  - apply (proj2 normaliser_keeps_single_labels [summary_rock; summary_pop]).
    + repeat constructor; [by exists "Rock" | by exists "Pop"].
    + apply (bool_decide_unpack _). vm_compute. exact I.
Defined.

(** ** The total of the pie chart *)

Lemma Z_sum_app l k : Genres.Z_sum (l ++ k) = Genres.Z_sum l + Genres.Z_sum k.
Proof.
  unfold Genres.Z_sum. induction l as [|x l IH]; simpl; [done|]. rewrite IH. lia.
Qed.

Lemma Z_sum_const {A} (v : Z) (l : list A) :
  Genres.Z_sum (map (fun _ => v) l) = Z.of_nat (length l) * v.
Proof.
  unfold Genres.Z_sum. induction l as [|x l IH]; [done|].
  simpl foldr. rewrite IH. simpl length. lia.
Qed.

Lemma filter_ext_elem {A} (P Q : A -> Prop) `{!forall x, Decision (P x)}
    `{!forall x, Decision (Q x)} (l : list A) :
  (forall x, x ∈ l -> P x <-> Q x) -> filter P l = filter Q l.
Proof.
  induction l as [|x l IH]; intros Hext; [done|].
  rewrite !filter_cons.
  assert (P x <-> Q x) as Hx by (apply Hext; by left).
  rewrite IH by (intros y Hy; apply Hext; by right).
  destruct (decide (P x)), (decide (Q x)); tauto.
Qed.

(** The sum over two disjoint selections of rows. *)
Lemma Z_sum_filter_or {A} (f : A -> Z) (P Q : A -> Prop)
    `{!forall x, Decision (P x)} `{!forall x, Decision (Q x)} (l : list A) :
  (forall x, P x -> Q x -> False) ->
  Genres.Z_sum (map f (filter (fun x => P x \/ Q x) l))
  = Genres.Z_sum (map f (filter P l)) + Genres.Z_sum (map f (filter Q l)).
Proof.
  intros Hdis. induction l as [|x l IH]; [done|].
  rewrite !filter_cons.
  destruct (decide (P x)) as [HP|HP], (decide (Q x)) as [HQ|HQ].
  - by destruct (Hdis x).
  - rewrite decide_True by by left. unfold Genres.Z_sum in *. simpl. lia.
  - rewrite decide_True by by right. unfold Genres.Z_sum in *. simpl. lia.
  - rewrite decide_False by tauto. done.
Qed.

(** Summing group by group is summing over the rows that have a key. *)
Lemma Z_sum_by_groups {A} (f : A -> Z) (key : A -> option string)
    (ks : list string) (l : list A) :
  NoDup ks ->
  Genres.Z_sum (map (fun k => Genres.Z_sum (map f (filter (fun x => key x = Some k) l))) ks)
  = Genres.Z_sum (map f (filter (fun x => key x ∈ map Some ks) l)).
Proof.
  induction 1 as [|k ks Hk _ IH].
  - simpl. rewrite (filter_ext_elem _ (fun _ => False)).
    + by induction l.
    + intros x _. rewrite elem_of_nil. tauto.
  - simpl map. change (Genres.Z_sum (?a :: ?b)) with (a + Genres.Z_sum b).
    rewrite IH.
    rewrite <- (Z_sum_filter_or f (fun x => key x = Some k)
                  (fun x => key x ∈ map Some ks)).
    + f_equal. f_equal. apply filter_ext_elem. intros x _.
      rewrite elem_of_cons. split; [intros [?|?]; auto | intros [?|?]; auto].
    + intros x Hx Hin. apply Hk. rewrite Hx in Hin.
      change (map Some ks) with (Some <$> ks) in Hin.
      by apply list_elem_of_fmap in Hin as (? & [= ->] & ?).
Qed.

(** X6: the song counts of the summary add up to the counts of the rows,
    each taken once per label of its genre field: a row with two labels is
    counted twice in the pie chart, a row without genre not at all. *)
Theorem summary_total_songs (df : list Genres.row) :
  Genres.Z_sum (map Genres.TotalSongs (Genres.normalize df))
  = Genres.Z_sum (map (fun r => Z.of_nat (length (genre_labels (Genres.Genre r)))
                                * Genres.TotalSongs r) df).
Proof.
  unfold Genres.normalize. rewrite groupby_agg_summary_rows, map_map. simpl.
  rewrite (Z_sum_by_groups Genres.TotalSongs Genres.Genre)
    by apply group_keys_NoDup.
  rewrite (filter_ext_elem _ (fun x => Genres.Genre x <> None)).
  2:{ intros x Hx. change (map Some ?k) with (Some <$> k).
      rewrite list_elem_of_fmap. setoid_rewrite (group_keys_elem String.le).
      split.
      - by intros (g & -> & _).
      - intros Hg. destruct (Genres.Genre x) as [g|] eqn:Hgx; [|done].
        exists g. split; [done|]. rewrite <- Hgx.
        change (map ?f ?k) with (f <$> k). apply list_elem_of_fmap. by exists x. }
  unfold Genres.explode. induction df as [|r df IH]; [done|].
  simpl flat_map. rewrite filter_app, map_app, Z_sum_app, IH.
  simpl map. change (Genres.Z_sum (?a :: ?b)) with (a + Genres.Z_sum b).
  f_equal. destruct (Genres.Genre r) as [s|] eqn:Hs; simpl.
  - pose proof (split_nonempty s ", ") as Hne.
    destruct (split s ", ") as [|l ls] eqn:Hsplit; [done|].
    change (Some l :: map Some ls) with (map Some (l :: ls)).
    rewrite map_map.
    rewrite (filter_ext_elem _ (fun _ => True)).
    2:{ intros x Hx. change (map ?f ?k) with (f <$> k) in Hx.
        by apply list_elem_of_fmap in Hx as (? & -> & _). }
    assert (forall (A : Type) (l : list A), filter (fun _ => True) l = l) as Hall.
    { intros A k. induction k as [|y k IHk]; [done|].
      rewrite filter_cons. simpl. by rewrite IHk. }
    rewrite Hall, map_map.
    exact (Z_sum_const (Genres.TotalSongs r) (l :: ls)).
  - lia.
Qed.

(** ** The prompt for a year *)

(** X8: [input_year] returns the first line that is an integer between
    1998 and 2020, having turned down every line before it with one message
    each, and reads no further; the year it returns is always in that
    range. When every line is turned down the input ends under the prompt
    and the [EOFError] escapes. *)
Theorem input_year_outcome (int : string -> option Z) (inputs : list string) :
  let (log, r) := Genres.input_year int inputs in
  match r with
  | Genres.Returned a rest =>
      1998 <= a <= 2020 /\
      exists pre line log',
        inputs = (pre ++ line :: rest)%list /\
        int line = Some a /\
        Forall (turned_down int) pre /\
        log = (log' ++ [Genres.Asked "Enter a year: ";
                        Genres.Printed ("Songs in Year " ++ pretty a)])%list /\
        length log' = (2 * length pre)%nat
  | Genres.EOFError =>
      Forall (turned_down int) inputs /\
      length log = (2 * length inputs + 1)%nat
  end.
Proof.
  induction inputs as [|line inputs IH]; simpl.
  - split; [constructor | done].
  - destruct (Genres.input_year int inputs) as [log r].
    destruct (int line) as [a|] eqn:Hline.
    + destruct (Z.leb 1998 a && Z.leb a 2020) eqn:Hrange.
      * apply andb_true_iff in Hrange as [H1%Z.leb_le H2%Z.leb_le].
        split; [lia|]. by exists [], line, [].
      * assert (turned_down int line) as Hdown.
        { unfold turned_down. rewrite Hline. intros [H1 H2].
          apply Z.leb_le in H1, H2. by rewrite H1, H2 in Hrange. }
        destruct r as [b rest|].
        -- destruct IH as (Hb & pre & l & log' & -> & Hl & Hpre & -> & Hlen).
           split; [done|].
           exists (line :: pre), l,
             (Genres.Asked "Enter a year: "
                :: Genres.Printed "The number is not in the range. Please try again."
                :: log').
           repeat split; try done; [by constructor | simpl; lia].
        -- destruct IH as [Hall Hlen]. split; [by constructor | simpl; lia].
    + assert (turned_down int line) as Hdown
        by (unfold turned_down; by rewrite Hline).
      destruct r as [b rest|].
      * destruct IH as (Hb & pre & l & log' & -> & Hl & Hpre & -> & Hlen).
        split; [done|].
        exists (line :: pre), l,
          (Genres.Asked "Enter a year: "
             :: Genres.Printed "Invalid input. Please enter a valid year."
             :: log').
        repeat split; try done; [by constructor | simpl; lia].
      * destruct IH as [Hall Hlen]. split; [by constructor | simpl; lia].
Qed.

(** ** The ranking pipeline *)

Lemma calculate_rank_value_out data wx wy w r w' :
  calculate_rank_value data wx wy w = Ok (r, w') -> r = data /\ out w' = out w.
Proof.
  intros (ns & ps & x & y & _ & _ & _ & _ & -> & ->)%calculate_rank_value_inv.
  done.
Qed.

Lemma get_top_artists_out argsort data top_n w r w' :
  get_top_artists argsort data top_n w = Ok (r, w') -> out w' = out w.
Proof.
  intros (by_name & rank_value & values & _ & _ & _ & H)%get_top_artists_inv.
  simpl in H. by destruct H as [_ ->].
Qed.

(** What a run of [get_top_5_artists_by_year_range] that returns has done. *)
Lemma get_top_5_artists_by_year_range_inv argsort db start_year end_year w r w' :
  get_top_5_artists_by_year_range argsort db start_year end_year w = Ok (r, w') ->
  let data := next w in
  let w0 := World (<[data:=db start_year end_year]> (heap w)) (S data) (out w) in
  r = None /\
  ((empty (db start_year end_year) = true /\
    w' = World (heap w0) (next w0)
           (out w ++ [Print ("No data found for the years " ++ pretty start_year
                             ++ "-" ++ pretty end_year ++ ".")])%list) \/
   (empty (db start_year end_year) = false /\
    exists w1 top w2,
      calculate_rank_value data half half w0 = Ok (data, w1) /\
      get_top_artists argsort data 5 w1 = Ok (top, w2) /\
      w' = World (heap w2) (next w2)
             (out w ++ [DisplayTable (heap w2 top); PlotData (heap w2 top)])%list)).
Proof.
  intros H data w0.
  unfold get_top_5_artists_by_year_range, get_artist_data, display_table,
    plot_data, bind, alloc, deref, emit, ret in H.
  simpl in H. rewrite fn_lookup_insert in H. fold data in H. fold w0 in H.
  destruct (empty (db start_year end_year)) eqn:Hempty.
  - simplify_eq. split; [done|]. by left.
  - destruct (calculate_rank_value data half half w0) as [[d w1]|] eqn:Hcalc; [|done].
    pose proof (calculate_rank_value_out _ _ _ _ _ _ Hcalc) as [Hd Hout1].
    rewrite Hd in *. clear Hd.
    destruct (get_top_artists argsort data 5 w1) as [[top w2]|] eqn:Htop; [|done].
    pose proof (get_top_artists_out _ _ _ _ _ _ Htop) as Hout2.
    simpl in H. simplify_eq. split; [done|]. right. split; [done|].
    eexists _, _, _. split; [done|]. split; [exact Htop|].
    rewrite Hout2, Hout1. simpl. by rewrite <- app_assoc.
Qed.

(** X9: [get_top_5_artists_by_year_range] answers [None] on every path
    (its last path has no [return]), so [plot_top_5_artists_rank_values]
    stops at its test for [None]: it never prints the table of the top
    artists and never draws its line chart. All that a run shows is either
    the no-data message, or the table and the plot that
    [get_top_5_artists_by_year_range] makes of the selected rows. *)
Theorem top_5_chart_never_drawn argsort (db : Z -> Z -> DataFrame)
    (start_year end_year : Z) (w : world) :
  (forall r w',
     get_top_5_artists_by_year_range argsort db start_year end_year w = Ok (r, w') ->
     r = None) /\
  plot_top_5_artists_rank_values argsort db start_year end_year w
  = match get_top_5_artists_by_year_range argsort db start_year end_year w with
    | Ok (_, w') => Ok (tt, w')
    | Raise e => Raise e
    end /\
  (forall w',
     plot_top_5_artists_rank_values argsort db start_year end_year w = Ok (tt, w') ->
     out w' = (out w ++ [Print ("No data found for the years " ++ pretty start_year
                                ++ "-" ++ pretty end_year ++ ".")])%list \/
     exists top, out w' = (out w ++ [DisplayTable (heap w' top);
                                     PlotData (heap w' top)])%list).
Proof.
  assert (forall r w',
            get_top_5_artists_by_year_range argsort db start_year end_year w
            = Ok (r, w') -> r = None) as Hnone.
  { intros r w' H. by apply get_top_5_artists_by_year_range_inv in H as [-> _]. }
  assert (plot_top_5_artists_rank_values argsort db start_year end_year w
          = match get_top_5_artists_by_year_range argsort db start_year end_year w with
            | Ok (_, w') => Ok (tt, w')
            | Raise e => Raise e
            end) as Hplot.
  { unfold plot_top_5_artists_rank_values, bind.
    destruct (get_top_5_artists_by_year_range argsort db start_year end_year w)
      as [[r w']|] eqn:Hrun; [|done].
    by rewrite (Hnone r w' eq_refl). }
  split; [done|]. split; [done|].
  intros w' H. rewrite Hplot in H.
  destruct (get_top_5_artists_by_year_range argsort db start_year end_year w)
    as [[r w'']|] eqn:Hrun; [|done]. simplify_eq.
  apply get_top_5_artists_by_year_range_inv in Hrun
    as (_ & [(_ & ->)|(_ & w1 & top & w2 & _ & _ & ->)]); simpl.
  - by left.
  - right. by exists top.
Qed.

Lemma top_5_chart_never_drawn_witness :
  exists w',
    plot_top_5_artists_rank_values stable_argsort (fun _ _ => frame_AB) 2000 2000 initial
    = Ok (tt, w') /\
    exists top, out w' = [DisplayTable (heap w' top); PlotData (heap w' top)].
Proof.
  destruct (top_5_chart_never_drawn stable_argsort (fun _ _ => frame_AB)
              2000 2000 initial) as (_ & Hplot & Hout).
  assert (exists w', get_top_5_artists_by_year_range stable_argsort
                       (fun _ _ => frame_AB) 2000 2000 initial = Ok (None, w'))
    as (w' & Hrun).
  { eexists. unfold get_top_5_artists_by_year_range, get_artist_data, bind, alloc,
      deref. simpl. reflexivity. }
  rewrite Hrun in Hplot. exists w'. split; [exact Hplot|].
  destruct (Hout w' Hplot) as [Hnodata|Hshown]; [|exact Hshown].
  exfalso. clear -Hrun Hnodata.
  apply get_top_5_artists_by_year_range_inv in Hrun
    as (_ & [(Hempty & _)|(_ & w1 & top & w2 & _ & _ & ->)]); [done|].
  simpl in Hnodata. discriminate Hnodata.
Defined.

(** ** Running the ranker again, or out of order *)

Lemma setitem_setitem df c s s' : setitem (setitem df c s) c s' = setitem df c s'.
Proof.
  induction df as [|[d t] df IH]; simpl.
  - by rewrite String.eqb_refl.
  - destruct (String.eqb d c) eqn:E; simpl; rewrite E; [done | by rewrite IH].
Qed.

Lemma setitem_names_indep df c s s' : (setitem df c s).*1 = (setitem df c s').*1.
Proof.
  induction df as [|[d t] df IH]; csimpl; [done|].
  destruct (String.eqb d c); csimpl; [done | by rewrite IH].
Qed.

Lemma getitem_missing df c : has_column df c = false -> getitem df c = Raise (KeyError c).
Proof.
  unfold has_column. induction df as [|[d t] df IH]; simpl; [done|].
  destruct (String.eqb d c); [done | exact IH].
Qed.

(** X10: [calculate_rank_value] may be run again on the frame it has
    ranked. The second run succeeds, and it leaves the frame, every other
    object and the output exactly as one run with the second weights would
    have left them: the column ['rank_value'] is overwritten, not added a
    second time. *)
Theorem calculate_rank_value_again data wx wy wx' wy' w r1 w1 :
  calculate_rank_value data wx wy w = Ok (r1, w1) ->
  exists w2 w2',
    calculate_rank_value data wx' wy' w1 = Ok (data, w2) /\
    calculate_rank_value data wx' wy' w = Ok (data, w2') /\
    next w2 = next w2' /\ out w2 = out w2' /\
    (forall l, heap w2 l = heap w2' l) /\
    (heap w2 data).*1 = (heap w1 data).*1.
Proof.
  intros (ns & ps & x & y & Hns & Hx & Hps & Hy & -> & ->)%calculate_rank_value_inv.
  assert (exists x', mul_scalar ns wx' = Ok x') as [x' Hx'].
  { destruct ns as [[|]| |]; simpl in *; by eauto. }
  assert (exists y', mul_scalar ps wy' = Ok y') as [y' Hy'].
  { destruct ps as [[|]| |]; simpl in *; by eauto. }
  eexists _, _. split; [|split].
  - unfold calculate_rank_value, bind, lift, deref, store, ret. simpl.
    rewrite fn_lookup_insert, !getitem_setitem_ne by done.
    rewrite Hns, Hx', Hps, Hy'. reflexivity.
  - unfold calculate_rank_value, bind, lift, deref, store, ret. simpl.
    rewrite Hns, Hx', Hps, Hy'. reflexivity.
  - simpl. repeat split.
    + intros l. rewrite setitem_setitem.
      destruct (decide (data = l)) as [->|Hne].
      * by rewrite !fn_lookup_insert.
      * by rewrite !fn_lookup_insert_ne.
    + rewrite !fn_lookup_insert, setitem_setitem. apply setitem_names_indep.
Qed.

Lemma calculate_rank_value_again_witness :
  exists w1 w2 w2',
    calculate_rank_value 0%nat (qc 1 1) (qc 0 1) (world_of frame_AB) = Ok (0%nat, w1) /\
    calculate_rank_value 0%nat half half w1 = Ok (0%nat, w2) /\
    calculate_rank_value 0%nat half half (world_of frame_AB) = Ok (0%nat, w2') /\
    forall l, heap w2 l = heap w2' l.
Proof.
  assert (exists w1, calculate_rank_value 0%nat (qc 1 1) (qc 0 1) (world_of frame_AB)
                     = Ok (0%nat, w1)) as [w1 Hrun] by (eexists; reflexivity).
  destruct (calculate_rank_value_again 0%nat (qc 1 1) (qc 0 1) half half
              (world_of frame_AB) 0%nat w1 Hrun)
    as (w2 & w2' & H1 & H2 & _ & _ & Hheap & _).
  by exists w1, w2, w2'.
Defined.

(** X11: the ranker's functions fail on a missing column with the
    [KeyError] of that column, in the order in which they read the columns:
    [calculate_rank_value] needs ['num_songs'], then ['avg_popularity'];
    [get_top_artists] needs ['ArtistName'], then ['rank_value'], so it
    cannot run before [calculate_rank_value]. *)
Theorem ranker_missing_column argsort (w : world) (data : loc) :
  (forall wx wy,
     has_column (heap w data) "num_songs" = false ->
     calculate_rank_value data wx wy w = Raise (KeyError "num_songs")) /\
  (forall wx wy ns,
     getitem (heap w data) "num_songs" = Ok (Int64Series ns) ->
     has_column (heap w data) "avg_popularity" = false ->
     calculate_rank_value data wx wy w = Raise (KeyError "avg_popularity")) /\
  (forall top_n,
     has_column (heap w data) "ArtistName" = false ->
     get_top_artists argsort data top_n w = Raise (KeyError "ArtistName")) /\
  (forall top_n,
     has_column (heap w data) "ArtistName" = true ->
     has_column (heap w data) "rank_value" = false ->
     get_top_artists argsort data top_n w = Raise (KeyError "rank_value")).
Proof.
  repeat split.
  - intros wx wy H%getitem_missing. run. by rewrite H.
  - intros wx wy ns Hns H%getitem_missing. run. by rewrite Hns, H.
  - intros top_n H%getitem_missing. run. by rewrite H.
  - intros top_n Hn H%getitem_missing. run. rewrite H.
    unfold has_column in Hn. by destruct (getitem (heap w data) "ArtistName").
Qed.

Lemma ranker_missing_column_witness :
  get_top_artists stable_argsort 0%nat 5 (world_of frame_AB)
  = Raise (KeyError "rank_value") /\
  calculate_rank_value 0%nat half half (world_of [])
  = Raise (KeyError "num_songs").
Proof.
  destruct (ranker_missing_column stable_argsort (world_of frame_AB) 0%nat)
    as (_ & _ & _ & Hrank).
  destruct (ranker_missing_column stable_argsort (world_of []) 0%nat)
    as (Hsongs & _).
  split; [by apply Hrank | by apply Hsongs].
Defined.

(** ** Selections of any length *)

(** The first [n] artists in sorted order, for any [n] and any routine that
    sorts the column of averages. *)
Lemma selection_prefix_spec argsort (names : list (option key)) values (n : nat) :
  let avg := transform_mean key_le names values in
  let top := take n (drop_duplicates (take_rows (argsort avg) names)) in
  let G := artist_avg names values in
  sorts_descending argsort avg ->
  StronglySorted (fun a b => desc_ge (G a) (G b)) top /\
  (forall a b, a ∈ top -> b ∈ names -> b ∉ top -> desc_ge (G a) (G b)) /\
  NoDup top /\
  (forall a, a ∈ top -> a ∈ names) /\
  length top = Nat.min n (length (drop_duplicates names)) /\
  length (drop_duplicates (take_rows (argsort avg) names))
  = length (drop_duplicates names).
Proof.
  intros avg top G [Hp Hs]. subst top.
  unfold avg in Hp at 2. rewrite transform_mean_length in Hp.
  set (L := take_rows (argsort avg) names). set (D := drop_duplicates L).
  assert (forall a, a ∈ D <-> a ∈ names) as HD.
  { intros a. unfold D. rewrite drop_duplicates_elem. by apply take_rows_perm_elem. }
  assert (StronglySorted (fun a b => desc_ge (G a) (G b)) D) as HDs.
  { apply (StronglySorted_sublist _ D L); [apply drop_duplicates_go_sublist|].
    eapply take_rows_sorted; [|exact Hs]. simpl. intros i j x y Hi Hj.
    unfold avg.
    by rewrite (key_at_transform_mean _ _ _ _ Hi), (key_at_transform_mean _ _ _ _ Hj). }
  assert (NoDup D) as HDn by apply drop_duplicates_NoDup.
  assert (length D = length (drop_duplicates names)) as Hlen.
  { apply Permutation_length, NoDup_Permutation;
      [done | apply drop_duplicates_NoDup|].
    intros a. by rewrite HD, drop_duplicates_elem. }
  split; [|split; [|split; [|split; [|split]]]].
  - by apply (StronglySorted_sublist _ (take n D) D); [apply sublist_take|].
  - intros a b Ha Hb Hnb.
    rewrite <- (take_drop n D) in HDs.
    eapply (StronglySorted_app_1_elem_of _ _ _ _ _ HDs); [done|].
    apply HD in Hb. rewrite <- (take_drop n D) in Hb.
    by apply elem_of_app in Hb as [?|?].
  - eapply sublist_NoDup; [done | apply sublist_take].
  - intros a (i & Hi & _)%elem_of_take. apply HD. by eapply list_elem_of_lookup_2.
  - by rewrite length_take, Hlen.
  - done.
Qed.



(** X13: a negative [top_n] does not fail: [head] then drops the last
    [-top_n] artists of the sorted order, so all artists but the [-top_n]
    lowest ranked are selected, and none when there are no more than that. *)
Theorem negative_top_n argsort (names : list (option key)) values (top_n : Z) :
  let avg := transform_mean key_le names values in
  let top := top_artist_names argsort names avg top_n in
  let G := artist_avg names values in
  sorts_descending argsort avg ->
  top_n < 0 ->
  length top = (length (drop_duplicates names) - Z.to_nat (- top_n))%nat /\
  NoDup top /\
  (forall a, a ∈ top -> a ∈ names) /\
  (forall a b, a ∈ top -> b ∈ names -> b ∉ top -> desc_ge (G a) (G b)).
Proof.
  intros avg top G Hsort Hn. subst top. unfold top_artist_names, head.
  rewrite (proj2 (Z.leb_gt 0 top_n)) by done.
  set (D := drop_duplicates _).
  destruct (selection_prefix_spec argsort names values
              (length D - Z.to_nat (- top_n)) Hsort)
    as (_ & Hbest & Hnd & Hsub & Hlen & HD).
  fold avg in Hbest, Hnd, Hsub, Hlen, HD. fold D in Hbest, Hnd, Hsub, Hlen, HD.
  repeat split; try done. rewrite Hlen, <- HD. lia.
Qed.

Lemma negative_top_n_witness :
  length (top_artist_names stable_argsort tie_names
            (transform_mean key_le tie_names tie_values) (-1)) = 1%nat.
Proof.
  destruct (negative_top_n stable_argsort tie_names tie_values (-1)) as [Hlen _].
  - apply insertion_argsort_sorts.
  - lia.
  - rewrite Hlen. reflexivity.
Defined.

(** ** Masks *)

Lemma mask_list_nil_r {A} (m : list bool) : mask_list m (@nil A) = [].
Proof. unfold mask_list. by destruct m. Qed.

Lemma mask_list_cons {A} (b : bool) m (x : A) l :
  mask_list (b :: m) (x :: l) = if b then x :: mask_list m l else mask_list m l.
Proof. unfold mask_list. simpl. rewrite filter_cons. by destruct b. Qed.

Lemma mask_list_map {A B} (f : A -> B) m l :
  mask_list m (map f l) = map f (mask_list m l).
Proof.
  revert l. induction m as [|b m IH]; intros [|x l]; try done.
  change (map f (x :: l)) with (f x :: map f l).
  rewrite !mask_list_cons. destruct b; simpl; [f_equal|]; apply IH.
Qed.

(** The rows that a mask keeps depend on the mask alone. *)
Lemma mask_list_length {A} m (l : list A) :
  length l = length m -> length (mask_list m l) = length (filter (fun b => b = true) m).
Proof.
  revert l. induction m as [|b m IH]; intros [|x l] Hlen; try done.
  rewrite mask_list_cons, filter_cons. simpl in Hlen.
  destruct b; simpl; rewrite IH by lia; done.
Qed.

Lemma isin_cons {A} `{EqDecision A} (x : A) names sel :
  isin (x :: names) sel = bool_decide (x ∈ sel) :: isin names sel.
Proof. done. Qed.

Lemma isin_length {A} `{EqDecision A} (names sel : list A) :
  length (isin names sel) = length names.
Proof. unfold isin. apply length_map. Qed.

(** A mask that selects every name keeps every row. *)
Lemma mask_list_all {A B} `{EqDecision A} (names sel : list A) (l : list B) :
  (forall a, a ∈ names -> a ∈ sel) -> (length l <= length names)%nat ->
  mask_list (isin names sel) l = l.
Proof.
  revert l. induction names as [|x names IH]; intros [|y l] Hall Hlen; try done.
  - simpl in Hlen. lia.
  - rewrite isin_cons, mask_list_cons.
    rewrite bool_decide_eq_true_2 by (apply Hall; by left).
    f_equal. apply IH; [|simpl in Hlen; lia].
    intros a Ha. apply Hall. by right.
Qed.

(** The names that the mask of [isin] keeps are selected names. *)
Lemma mask_list_isin_elem {A} `{EqDecision A} (names sel : list A) a :
  a ∈ mask_list (isin names sel) names -> a ∈ sel.
Proof.
  induction names as [|x names IH]; [by rewrite mask_list_nil_r; intros ?%elem_of_nil|].
  rewrite isin_cons, mask_list_cons. case_bool_decide as Hx; [|done].
  intros [->|?]%elem_of_cons; [done | by apply IH].
Qed.

(** The group of a selected artist is whole in the masked frame. *)
Lemma group_values_mask {V} (names sel : list (option key)) (values : list V) k :
  Some k ∈ sel ->
  group_values k (mask_list (isin names sel) names) (mask_list (isin names sel) values)
  = group_values k names values.
Proof.
  intros Hk. revert values.
  induction names as [|x names IH]; intros [|v values]; try done.
  - rewrite !mask_list_nil_r. unfold group_values.
    by destruct (mask_list (isin (x :: names) sel) (x :: names)).
  - rewrite isin_cons, !mask_list_cons. unfold group_values in *.
    simpl zip. rewrite (filter_cons _ (x, v)). simpl.
    case_bool_decide as Hx.
    + simpl zip. rewrite filter_cons. simpl.
      destruct (decide (x = Some k)); csimpl; by rewrite IH.
    + rewrite decide_False by (by intros ->). apply IH.
Qed.

Lemma transform_mean_map (names : list (option key)) values :
  transform_mean key_le names values = map (artist_avg names values) names.
Proof.
  apply list_eq. intros i. rewrite transform_mean_lookup.
  change (map ?f ?l) with (f <$> l). by rewrite list_lookup_fmap.
Qed.

(** The averages computed on the selected rows are the averages of the
    whole frame, on those rows. *)
Lemma transform_mean_mask (names sel : list (option key)) values :
  let m := isin names sel in
  transform_mean key_le (mask_list m names) (mask_list m values)
  = mask_list m (transform_mean key_le names values).
Proof.
  intros m. subst m. rewrite !transform_mean_map, mask_list_map.
  apply map_ext_in. intros a Ha%list_elem_of_In.
  apply mask_list_isin_elem in Ha. unfold artist_avg.
  destruct a as [k|]; [|done]. simpl. by rewrite group_values_mask.
Qed.

(** ** Selecting among the selected *)

Lemma keys_of_mask m s : keys_of (mask_series m s) = mask_list m (keys_of s).
Proof. destruct s; simpl; by rewrite mask_list_map. Qed.

Lemma to_numeric_mask m s values :
  to_numeric s = Ok values -> to_numeric (mask_series m s) = Ok (mask_list m values).
Proof.
  destruct s as [[|x l]|l|l]; simpl; intros H; simplify_eq.
  - by rewrite !mask_list_nil_r.
  - by rewrite mask_list_map.
  - done.
Qed.

Lemma series_len_mask m s :
  series_len s = length m ->
  series_len (mask_series m s) = length (filter (fun b => b = true) m).
Proof. destruct s; simpl; apply mask_list_length. Qed.

Lemma setitem_same df c s : getitem df c = Ok s -> setitem df c s = df.
Proof.
  induction df as [|[d t] df IH]; simpl; [done|].
  destruct (String.eqb d c) eqn:E; [by intros [= ->]|].
  intros H. by rewrite IH.
Qed.

Lemma well_formed_setitem n df c s :
  well_formed n df -> series_len s = n -> well_formed n (setitem df c s).
Proof.
  unfold well_formed. intros Hwf Hs.
  induction Hwf as [|[d t] df Hd Hwf IH]; simpl.
  - constructor; [exact Hs | constructor].
  - destruct (String.eqb d c); by constructor.
Qed.

Lemma well_formed_getitem n df c s :
  well_formed n df -> getitem df c = Ok s -> series_len s = n.
Proof.
  unfold well_formed. induction 1 as [|[d t] df Hd _ IH]; simpl; [done|].
  destruct (String.eqb d c); [by intros [= <-] | done].
Qed.

Lemma keys_of_length s : length (keys_of s) = series_len s.
Proof. destruct s; simpl; apply length_map. Qed.

(** A mask that selects every name leaves a frame of that many rows as it
    is. *)
Lemma mask_frame_all (names sel : list (option key)) (df : DataFrame) :
  (forall a, a ∈ names -> a ∈ sel) ->
  well_formed (length names) df ->
  mask_frame (isin names sel) df = df.
Proof.
  intros Hall. unfold well_formed, mask_frame.
  induction 1 as [|[c s] df Hs _ IH]; simpl; [done|]. rewrite IH. f_equal. f_equal.
  simpl in Hs. destruct s; simpl in *; f_equal; apply mask_list_all; try done; lia.
Qed.

Lemma well_formed_mask_frame n m df :
  length m = n -> well_formed n df ->
  well_formed (length (filter (fun b => b = true) m)) (mask_frame m df).
Proof.
  intros Hm. unfold well_formed, mask_frame.
  induction 1 as [|[c s] df Hs _ IH]; simpl; constructor; [|done]. simpl.
  apply series_len_mask. simpl in Hs. congruence.
Qed.

(** X14: selecting the top [top_n] artists of a frame that is itself a
    top-[top_n] selection returns that frame again: the averages of the
    selected artists are the same on their rows alone, and all of them are
    selected. *)
Theorem reselect_keeps_rows argsort (w : world) (data : loc) (top_n : Z) (n : nat)
    by_name rank_value values :
  sort_contract argsort ->
  0 <= top_n ->
  (data < next w)%nat ->
  well_formed n (heap w data) ->
  getitem (heap w data) "ArtistName" = Ok by_name ->
  getitem (heap w data) "rank_value" = Ok rank_value ->
  to_numeric rank_value = Ok values ->
  exists w1 w2,
    get_top_artists argsort data top_n w = Ok (next w, w1) /\
    get_top_artists argsort (next w) top_n w1 = Ok (S (next w), w2) /\
    heap w2 (S (next w)) = heap w1 (next w) /\
    heap w2 (next w) = heap w1 (next w) /\
    heap w2 data = heap w1 data.
Proof.
  intros Hsort Hn Hdata Hwf Hname Hrank Hvalues.
  set (names := keys_of by_name).
  set (avg := transform_mean key_le names values).
  set (top := top_artist_names argsort names avg top_n).
  set (d1 := setitem (heap w data) "avg_rank_value" (Float64Series avg)).
  set (m := isin names top). set (F := mask_frame m d1).
  assert (length names = n) as Hlen.
  { unfold names. rewrite keys_of_length. by eapply well_formed_getitem. }
  assert (well_formed n d1) as Hwf1.
  { apply well_formed_setitem; [done|]. simpl. unfold avg.
    by rewrite transform_mean_length. }
  set (names' := mask_list m names).
  assert (length names' = length (filter (fun b => b = true) m)) as Hlen'.
  { unfold names'. apply mask_list_length. unfold m. by rewrite isin_length. }
  assert (getitem F "ArtistName" = Ok (mask_series m by_name)) as Hname'.
  { apply getitem_mask_frame. unfold d1. by rewrite getitem_setitem_ne. }
  assert (getitem F "rank_value" = Ok (mask_series m rank_value)) as Hrank'.
  { apply getitem_mask_frame. unfold d1. by rewrite getitem_setitem_ne. }
  assert (getitem F "avg_rank_value" = Ok (Float64Series (mask_list m avg))) as Havg'.
  { unfold F, d1. erewrite getitem_mask_frame; [|apply getitem_setitem_eq]. done. }
  pose proof (to_numeric_mask m _ _ Hvalues) as Hvalues'.
  eexists _, _. split; [by apply (get_top_artists_run _ _ _ _ _ _ _ Hname Hrank Hvalues)|].
  fold names avg top d1 m F.
  assert (next w <> data) as Hne by lia.
  split.
  { erewrite get_top_artists_run; [reflexivity|..].
    - simpl. rewrite fn_lookup_insert. exact Hname'.
    - simpl. rewrite fn_lookup_insert. exact Hrank'.
    - exact Hvalues'. }
  simpl. rewrite !fn_lookup_insert. rewrite keys_of_mask. fold names names'.
  assert (transform_mean key_le names' (mask_list m values) = mask_list m avg) as Htm
    by apply transform_mean_mask.
  set (avg' := transform_mean key_le names' (mask_list m values)) in *.
  assert (setitem F "avg_rank_value" (Float64Series avg') = F) as Hsame.
  { apply setitem_same. by rewrite Htm. }
  rewrite Hsame.
  assert (forall a, a ∈ names' ->
            a ∈ top_artist_names argsort names' avg' top_n) as Hall.
  { destruct (top_artist_names_spec argsort names (values) top_n (Hsort _) Hn)
      as (_ & _ & _ & _ & Htoplen & _). fold avg top in Htoplen.
    destruct (top_artist_names_spec argsort names' (mask_list m values) top_n
                (Hsort _) Hn) as (_ & _ & _ & _ & _ & Hevery).
    apply Hevery. trans (length top); [|lia].
    apply submseteq_length, NoDup_submseteq; [apply drop_duplicates_NoDup|].
    intros a Ha. apply (proj1 (drop_duplicates_elem _ _)) in Ha.
    by apply mask_list_isin_elem in Ha. }
  assert (mask_frame (isin names' (top_artist_names argsort names' avg' top_n)) F = F)
    as Hmask.
  { apply mask_frame_all; [done|]. rewrite Hlen'.
    apply (well_formed_mask_frame n); [|done]. unfold m.
    by rewrite isin_length. }
  rewrite Hmask. repeat split.
  - rewrite fn_lookup_insert_ne, fn_lookup_insert by lia. done.
  - rewrite !(fn_lookup_insert_ne _ _ data) by lia.
    by rewrite fn_lookup_insert.
Qed.

Lemma reselect_keeps_rows_witness :
  exists w1 w2,
    get_top_artists stable_argsort 0%nat 1 (world_of frame_AB_ranked) = Ok (1%nat, w1) /\
    get_top_artists stable_argsort 1%nat 1 w1 = Ok (2%nat, w2) /\
    heap w2 2%nat = heap w1 1%nat.
Proof.
  destruct (reselect_keeps_rows stable_argsort (world_of frame_AB_ranked) 0%nat 1 2
              (ObjectSeries [Some "A"; Some "B"]) (Float64Series rank_AB) rank_AB)
    as (w1 & w2 & H1 & H2 & Hsame & _).
  - apply insertion_argsort_sorts.
  - lia.
  - unfold world_of. simpl. lia.
  - unfold world_of. simpl. rewrite fn_lookup_insert. by repeat constructor.
  - reflexivity.
  - reflexivity.
  - reflexivity.
  - by exists w1, w2.
Defined.

Lemma getitem_mask_frame_inv m df c s :
  getitem (mask_frame m df) c = Ok s ->
  exists s0, getitem df c = Ok s0 /\ s = mask_series m s0.
Proof.
  induction df as [|[d t] df IH]; simpl; [done|].
  destruct (String.eqb d c); [|done]. intros [= <-]. by exists t.
Qed.

Lemma mask_list_none {A B} `{EqDecision A} (names : list A) (l : list B) :
  mask_list (isin names []) l = [].
Proof.
  revert l. induction names as [|x names IH]; intros [|y l]; try done.
  rewrite isin_cons, mask_list_cons.
  rewrite bool_decide_eq_false_2 by apply not_elem_of_nil. apply IH.
Qed.

(** X15: with [top_n = 0], [get_top_artists] selects nobody, whatever the
    sorting routine: it returns a frame with the columns of the caller's
    frame and no row, and has still added ['avg_rank_value'] to the
    caller's frame. *)
Theorem top_zero_returns_no_rows argsort (w : world) (data : loc)
    by_name rank_value values :
  getitem (heap w data) "ArtistName" = Ok by_name ->
  getitem (heap w data) "rank_value" = Ok rank_value ->
  to_numeric rank_value = Ok values ->
  (data < next w)%nat ->
  exists w',
    get_top_artists argsort data 0 w = Ok (next w, w') /\
    getitem (heap w' data) "avg_rank_value"
    = Ok (Float64Series (transform_mean key_le (keys_of by_name) values)) /\
    (heap w' (next w)).*1 = (heap w' data).*1 /\
    forall c s, getitem (heap w' (next w)) c = Ok s -> series_len s = 0%nat.
Proof.
  intros Hname Hrank Hvalues Hdata. assert (next w <> data) as Hne by lia.
  eexists. split; [by apply (get_top_artists_run _ _ _ _ _ _ _ Hname Hrank Hvalues)|].
  simpl. rewrite fn_lookup_insert, fn_lookup_insert_ne, fn_lookup_insert by done.
  split; [apply getitem_setitem_eq|]. split; [apply mask_frame_names|].
  intros c s (s0 & _ & ->)%getitem_mask_frame_inv.
  change (top_artist_names argsort ?k ?a 0) with (@nil (option key)).
  destruct s0; unfold mask_series, series_len; by rewrite mask_list_none.
Qed.

Lemma top_zero_returns_no_rows_witness :
  exists w',
    get_top_artists merge_argsort 0%nat 0 (world_of frame_AB_ranked)
    = Ok (1%nat, w') /\
    forall c s, getitem (heap w' 1%nat) c = Ok s -> series_len s = 0%nat.
Proof.
  destruct (top_zero_returns_no_rows merge_argsort (world_of frame_AB_ranked)
              0%nat (ObjectSeries [Some "A"; Some "B"]) (Float64Series rank_AB)
              rank_AB eq_refl eq_refl eq_refl) as (w' & Hrun & _ & _ & Hrows).
  - unfold world_of. simpl. lia.
  - by exists w'.
Defined.

Lemma split_join_witness :
  String.concat ", " (split "Pop, Rock, Latin" ", ") = "Pop, Rock, Latin".
Proof. apply (split_join "Pop, Rock, Latin" ", "). discriminate. Defined.

(** ** Stable routines agree *)
















(** ** Rank values row by row *)

Lemma calculate_rank_value_rows (w : world) (data : loc) (wx wy : Qc) ns ps :
  getitem (heap w data) "num_songs" = Ok (Int64Series ns) ->
  getitem (heap w data) "avg_popularity" = Ok (Float64Series ps) ->
  exists w',
    calculate_rank_value data wx wy w = Ok (data, w') /\
    getitem (heap w' data) "rank_value"
    = Ok (Float64Series
            (zip_with add_cell (map (fun z => Some (Qc_of_Z z * wx)%Qc) ns)
                               (map (option_map (fun x => (x * wy)%Qc)) ps))).
Proof.
  intros Hns Hps. eexists. split.
  - run. rewrite Hns, Hps. simpl. reflexivity.
  - simpl. rewrite fn_lookup_insert. apply getitem_setitem_eq.
Qed.

(** X17: with weights that are not negative the rank value is monotone: of
    two rows, the one with no fewer songs and no lower popularity has no
    lower rank value. A row whose popularity is NaN has a NaN rank value. *)
Theorem rank_value_monotone (w : world) (data : loc) (wx wy : Qc) ns ps :
  getitem (heap w data) "num_songs" = Ok (Int64Series ns) ->
  getitem (heap w data) "avg_popularity" = Ok (Float64Series ps) ->
  (0 <= wx)%Qc -> (0 <= wy)%Qc ->
  exists w' rv,
    calculate_rank_value data wx wy w = Ok (data, w') /\
    getitem (heap w' data) "rank_value" = Ok (Float64Series rv) /\
    (forall i j n n' p p',
       ns !! i = Some n -> ps !! i = Some (Some p) ->
       ns !! j = Some n' -> ps !! j = Some (Some p') ->
       n <= n' -> (p <= p')%Qc ->
       exists r r', rv !! i = Some (Some r) /\ rv !! j = Some (Some r') /\ (r <= r')%Qc) /\
    (forall i n, ns !! i = Some n -> ps !! i = Some None -> rv !! i = Some None).
Proof.
  intros Hns Hps Hwx Hwy.
  destruct (calculate_rank_value_rows w data wx wy ns ps Hns Hps) as (w' & Hrun & Hrv).
  eexists _, _. split; [exact Hrun|]. split; [exact Hrv|]. split.
  - intros i j n n' p p' Hi Hpi Hj Hpj Hn Hp.
    eexists _, _. split; [|split].
    + rewrite lookup_zip_with. change (map ?f ?l) with (f <$> l).
      rewrite !list_lookup_fmap, Hi, Hpi. simpl. reflexivity.
    + rewrite lookup_zip_with. change (map ?f ?l) with (f <$> l).
      rewrite !list_lookup_fmap, Hj, Hpj. simpl. reflexivity.
    + apply Qcplus_le_compat.
      * apply Qcmult_le_mono_nonneg_r; [done|].
        by apply (proj1 (Z2Qc_inj_le _ _)).
      * by apply Qcmult_le_mono_nonneg_r.
  - intros i n Hi Hpi. rewrite lookup_zip_with. change (map ?f ?l) with (f <$> l).
    rewrite !list_lookup_fmap, Hi, Hpi. simpl. reflexivity.
Qed.

Lemma rank_value_monotone_witness :
  exists w' rv,
    calculate_rank_value 0%nat half half (world_of frame_dominated) = Ok (0%nat, w') /\
    getitem (heap w' 0%nat) "rank_value" = Ok (Float64Series rv) /\
    (exists r r', rv !! 0%nat = Some (Some r) /\ rv !! 1%nat = Some (Some r') /\
                  (r <= r')%Qc) /\
    rv !! 2%nat = Some None.
Proof.
  destruct (rank_value_monotone (world_of frame_dominated) 0%nat half half
              [5; 10; 3] [Some (qc 50 1); Some (qc 90 1); None] eq_refl eq_refl)
    as (w' & rv & Hrun & Hrv & Hmono & Hnan).
  - by vm_compute.
  - by vm_compute.
  - exists w', rv. split; [done|]. split; [done|]. split.
    + apply (Hmono 0%nat 1%nat 5 10 (qc 50 1) (qc 90 1)); try done.
    + by apply (Hnan 2%nat 3).
Defined.

(** ** Normalising twice *)

Lemma string_app_nil_r (a : string) : (a ++ "")%string = a.
Proof.
  induction a as [|x a IH]; [done|].
  change (String x (a ++ "") = String x a)%string. by rewrite IH.
Qed.

(** The piece read so far only prefixes the first piece. *)
Lemma split_go_cur sep skip cur s :
  split_go sep skip cur s
  = match split_go sep skip EmptyString s with
    | [] => []
    | hd :: tl => (cur ++ hd)%string :: tl
    end.
Proof.
  revert skip cur. induction s as [|c s IH]; intros skip cur.
  - simpl. by rewrite string_app_nil_r.
  - destruct skip as [|k]; [|apply IH].
    change (split_go sep 0 ?x (String c s))
      with (if String.prefix sep (String c s)
            then x :: split_go sep (String.length sep - 1) EmptyString s
            else split_go sep 0 (x ++ String c EmptyString) s).
    destruct (String.prefix sep (String c s)).
    + by rewrite string_app_nil_r.
    + rewrite (IH 0%nat (cur ++ String c "")%string).
      rewrite (IH 0%nat ("" ++ String c "")%string).
      destruct (split_go sep 0 "" s) as [|hd tl]; [done|].
      by rewrite string_app_assoc.
Qed.

Lemma prefix_app_mono sep u v :
  String.prefix sep u = true -> String.prefix sep (u ++ v) = true.
Proof.
  revert u. induction sep as [|a sep IH]; intros u.
  - intros _. by destruct (u ++ v)%string.
  - destruct u as [|b u]; [done|].
    change (String b u ++ v)%string with (String b (u ++ v)). simpl.
    destruct (ascii_dec a b); [apply IH | done].
Qed.

(** The first piece of a split is a prefix of the string. *)
Lemma split_first_prefix sep s hd tl :
  sep <> EmptyString -> split_go sep 0 EmptyString s = hd :: tl ->
  exists rest, s = (hd ++ rest)%string.
Proof.
  intros Hsep Hs.
  pose proof (split_go_join sep (String.length s) s EmptyString Hsep (le_n _)) as Hj.
  rewrite Hs in Hj. simpl in Hj. destruct tl as [|x tl].
  - exists EmptyString. by rewrite string_app_nil_r.
  - by eexists.
Qed.

(** No piece of a split contains the separator: it splits into itself. *)
Lemma split_piece_single sep n s p :
  sep <> EmptyString -> (String.length s <= n)%nat ->
  p ∈ split_go sep 0 EmptyString s -> split_go sep 0 EmptyString p = [p].
Proof.
  intros Hsep. revert s p. induction n as [|n IH]; intros s p Hlen.
  { destruct s; simpl in Hlen; [|lia]. simpl. by intros ->%list_elem_of_singleton. }
  destruct s as [|c s']; [simpl; by intros ->%list_elem_of_singleton|].
  change (split_go sep 0 "" (String c s'))
    with (if String.prefix sep (String c s')
          then EmptyString :: split_go sep (String.length sep - 1) EmptyString s'
          else split_go sep 0 ("" ++ String c EmptyString) s').
  destruct (String.prefix sep (String c s')) eqn:Hp.
  - apply prefix_app_inv in Hp as (t & Ht).
    destruct sep as [|a sep']; [done|].
    change (String c s' = String a (sep' ++ t))%string in Ht.
    injection Ht as -> ->.
    change (String.length (String a sep') - 1)%nat with (String.length sep' - 0)%nat.
    rewrite Nat.sub_0_r, split_go_skip.
    intros [->|Hin]%elem_of_cons; [done|].
    apply (IH t); [|done]. simpl in Hlen. rewrite string_app_length in Hlen. lia.
  - rewrite split_go_cur.
    destruct (split_go sep 0 "" s') as [|hd tl] eqn:Hs'; [by intros ?%elem_of_nil|].
    assert (split_go sep 0 "" hd = [hd]) as Hhd.
    { apply (IH s'); [simpl in Hlen; lia|]. rewrite Hs'. by left. }
    intros [->|Hin]%elem_of_cons.
    + change (("" ++ String c "") ++ hd)%string with (String c hd).
      change (split_go sep 0 "" (String c hd))
        with (if String.prefix sep (String c hd)
              then EmptyString :: split_go sep (String.length sep - 1) EmptyString hd
              else split_go sep 0 ("" ++ String c EmptyString) hd).
      destruct (String.prefix sep (String c hd)) eqn:Hp'.
      * destruct (split_first_prefix sep s' hd tl Hsep Hs') as [rest ->].
        apply (prefix_app_mono _ _ rest) in Hp'.
        change (String c hd ++ rest)%string with (String c (hd ++ rest)) in Hp'.
        congruence.
      * by rewrite split_go_cur, Hhd.
    + apply (IH s'); [simpl in Hlen; lia|]. rewrite Hs'. by right.
Qed.

Lemma genre_label_single g l : l ∈ genre_labels g -> single_label (Some l).
Proof.
  destruct g as [s|]; simpl; [|by intros ?%elem_of_nil].
  intros Hl. exists l. split; [done|].
  by apply (split_piece_single ", " (String.length s) s).
Qed.

(** Two lists with the same keys in the same order, each key once, whose
    elements are the same up to order, are equal. *)
Lemma Permutation_same_keys {A B} (f : A -> B) (l k : list A) :
  l ≡ₚ k -> map f l = map f k -> NoDup (map f l) -> l = k.
Proof.
  revert k. induction l as [|x l IH]; intros [|y k] Hp Hf Hnd; try done.
  simpl in Hf. injection Hf as Hxy Hf.
  change (NoDup (f x :: map f l)) in Hnd. apply NoDup_cons in Hnd as [Hx Hnd].
  assert (x = y) as ->.
  { assert (x ∈ y :: k) as Hin by (rewrite <- Hp; by left).
    apply elem_of_cons in Hin as [?|Hin]; [done|]. exfalso. apply Hx.
    rewrite Hf, Hxy. change (map f k) with (f <$> k).
    apply list_elem_of_fmap. by exists x. }
  f_equal. apply IH; [by apply (inj (cons y)) in Hp | done..].
Qed.

Lemma elem_of_map_Some {A} (x : A) (l : list A) : Some x ∈ map Some l <-> x ∈ l.
Proof.
  change (map Some l) with (Some <$> l). rewrite list_elem_of_fmap.
  split; [by intros (? & [= ->] & ?) | by exists x].
Qed.

(** X18: normalising is idempotent: the per-year summary of a summary is
    that summary, and [split_and_aggregate] returns the frame it is given
    when that frame is one it has returned. *)
Theorem normalise_twice :
  (forall df, Genres.normalize (Genres.normalize df) = Genres.normalize df) /\
  (forall data out,
     Artist.split_and_aggregate data = Ok out ->
     Artist.split_and_aggregate out = Ok out).
Proof.
  split.
  - intros df. set (out := Genres.normalize df).
    destruct (proj1 normalised_rows_sorted_aux df) as (labels & Hl & Hs & Hnd).
    fold out in Hl.
    assert (Forall (fun r => single_label (Genres.Genre r)) out) as Hsingle.
    { apply Forall_forall. intros r Hr.
      assert (Genres.Genre r ∈ map Genres.Genre out) as Hg
        by (change (map ?f ?k) with (f <$> k); apply list_elem_of_fmap; by exists r).
      rewrite Hl in Hg. change (map ?f ?k) with (f <$> k) in Hg.
      apply list_elem_of_fmap in Hg as (l & Hg & _). rewrite Hg.
      assert (Some l ∈ map Genres.Genre out) as Hin
        by (rewrite <- Hg; change (map ?f ?k) with (f <$> k);
            apply list_elem_of_fmap; by exists r).
      apply explode_groupby_labels in Hin as (r0 & _ & Hlab).
      by eapply genre_label_single. }
    assert (NoDup (map Genres.Genre out)) as Hnd'
      by (rewrite Hl; by apply (NoDup_fmap_2 Some)).
    pose proof (normalize_single_labels out Hsingle Hnd') as Hperm.
    apply (Permutation_same_keys Genres.Genre); [done| |].
    + destruct (proj1 normalised_rows_sorted_aux out) as (labels' & Hl' & Hs' & Hnd'').
      rewrite Hl', Hl. f_equal.
      apply (StronglySorted_unique String.le); [done..|].
      apply NoDup_Permutation; [done..|]. intros l.
      rewrite <- (elem_of_map_Some l labels'), <- Hl'.
      rewrite <- (elem_of_map_Some l labels), <- Hl.
      change (map ?f ?k) with (f <$> k). by rewrite Hperm.
    + change (map ?f ?k) with (f <$> k). by rewrite Hperm.
  - intros data out Hrun.
    destruct (proj2 normalised_rows_sorted_aux data out Hrun) as (labels & Hl & Hs & Hnd).
    pose proof (split_and_aggregate_outcome_aux data) as Hout. rewrite Hrun in Hout.
    destruct Hout as (_ & _ & Hne).
    pose proof Hrun as (_ & _ & Hdef)%split_and_aggregate_inv.
    assert (Forall (fun r => single_label (Artist.Genre r)) out) as Hsingle.
    { apply Forall_forall. intros r Hr. rewrite Hdef, groupby_mean_rows in Hr.
      change (map ?f ?k) with (f <$> k) in Hr.
      apply list_elem_of_fmap in Hr as (l & -> & Hin). simpl.
      apply group_keys_elem in Hin. change (map ?f ?k) with (f <$> k) in Hin.
      apply list_elem_of_fmap in Hin as (x & Hx & Hin).
      apply list_elem_of_In, in_flat_map in Hin as (r0 & _ & Hin).
      apply list_elem_of_In in Hin. change (map ?f ?k) with (f <$> k) in Hin.
      apply list_elem_of_fmap in Hin as (l' & -> & Hl'). simpl in Hx.
      injection Hx as ->. by eapply genre_label_single. }
    assert (NoDup (map Artist.Genre out)) as Hnd'
      by (rewrite Hl; by apply (NoDup_fmap_2 Some)).
    destruct (split_and_aggregate_single_labels out Hne Hsingle Hnd')
      as (out' & Hrun' & Hperm).
    rewrite Hrun'. f_equal.
    apply (Permutation_same_keys Artist.Genre); [done| |].
    + destruct (proj2 normalised_rows_sorted_aux out out' Hrun')
        as (labels' & Hl' & Hs' & Hnd'').
      rewrite Hl', Hl. f_equal.
      apply (StronglySorted_unique String.le); [done..|].
      apply NoDup_Permutation; [done..|]. intros l.
      rewrite <- (elem_of_map_Some l labels'), <- Hl'.
      rewrite <- (elem_of_map_Some l labels), <- Hl.
      change (map ?f ?k) with (f <$> k). by rewrite Hperm.
    + change (map ?f ?k) with (f <$> k). by rewrite Hperm.
Qed.

Lemma normalise_twice_witness :
  Artist.split_and_aggregate
    [Artist.Row (Some "Pop") (Some (qc 70 1)) (Some (qc 70 1));
     Artist.Row (Some "Rock") (Some (qc 80 1)) (Some (qc 80 1))]
  = Ok [Artist.Row (Some "Pop") (Some (qc 70 1)) (Some (qc 70 1));
        Artist.Row (Some "Rock") (Some (qc 80 1)) (Some (qc 80 1))].
Proof.
  apply (proj2 normalise_twice [artist_pop_rock; artist_pop]).
  apply (bool_decide_unpack _). vm_compute. exact I.
Defined.

(** X5: the labels of the per-year summary are the labels of the rows it
    is made of: a row without genre adds none, and a label met only inside
    composite fields has its row. *)
Theorem summary_labels (df : list Genres.row) (l : string) :
  Some l ∈ map Genres.Genre (Genres.normalize df)
  <-> exists r, r ∈ df /\ l ∈ genre_labels (Genres.Genre r).
Proof. apply explode_groupby_labels. Qed.

(** X19: a label made by the split never contains the separator: split
    again, it is one piece, itself. *)
Theorem split_labels_are_single (s sep l : string) :
  sep <> EmptyString -> l ∈ split s sep -> split l sep = [l].
Proof. intros Hsep. by apply (split_piece_single sep (String.length s)). Qed.

Lemma split_labels_are_single_witness : split "Hip hop" ", " = ["Hip hop"].
Proof.
  apply (split_labels_are_single "Pop, Hip hop, R&B" ", " "Hip hop").
  - discriminate.
  - apply (bool_decide_unpack _). vm_compute. exact I.
Defined.

(** ** The bar chart of Artist.py *)

(** How often a row of the artist's frame occurs in [merged_data]. *)
Lemma merge_left_rows (artist_data : list Artist.row) (genre_avg : list Artist.avg_row) :
  map Artist.left_row (Artist.merge_left artist_data genre_avg)
  = flat_map (fun r =>
                replicate
                  (Nat.max 1 (length (filter (fun k => k = Artist.Genre r)
                                             (map Artist.avg_Genre genre_avg))))
                  r)
             artist_data.
Proof.
  unfold Artist.merge_left.
  induction artist_data as [|r data IH]; [done|].
  cbn [flat_map]. rewrite map_app, IH. f_equal.
  assert (length (filter (fun g => Artist.avg_Genre g = Artist.Genre r) genre_avg)
          = length (filter (fun k => k = Artist.Genre r)
                           (map Artist.avg_Genre genre_avg))) as <-.
  { clear. induction genre_avg as [|g l IH]; [done|].
    simpl. rewrite !filter_cons. destruct (decide _); simpl; by rewrite IH. }
  destruct (filter _ genre_avg) as [|g ms]; [done|].
  replace (Nat.max 1 (length (g :: ms))) with (length (g :: ms)) by (simpl; lia).
  generalize (g :: ms). clear. intros l.
  induction l as [|g l IH]; [done|].
  cbn [map length replicate]. by rewrite IH.
Qed.

Lemma plot_data_rows (artist_data : list Artist.row) (genre_avg : list Artist.avg_row) :
  let rows := map Artist.left_row (Artist.merge_left artist_data genre_avg) in
  Artist.plot_data artist_data genre_avg
  = Artist.BarChart (map Artist.avg_popularity_artist rows)
                    (map Artist.avg_popularity_overall rows)
                    (map Artist.Genre rows).
Proof.
  intros rows. unfold Artist.plot_data, rows.
  by rewrite !map_map.
Qed.

(** X20: the chart of [plot_data] shows no value of [genre_avg]: two frames
    of genre averages with the same [Genre] column give the same bars and
    the same tick labels. The second series of bars is the
    [avg_popularity_overall] column of the artist's frame. *)
Theorem plot_data_reads_no_average (artist_data : list Artist.row)
    (genre_avg1 genre_avg2 : list Artist.avg_row) :
  map Artist.avg_Genre genre_avg1 = map Artist.avg_Genre genre_avg2 ->
  Artist.plot_data artist_data genre_avg1 = Artist.plot_data artist_data genre_avg2.
Proof.
  intros Heq. by rewrite !plot_data_rows, !merge_left_rows, Heq.
Qed.

Lemma plot_data_reads_no_average_witness :
  Artist.plot_data [artist_pop; artist_null]
    [Artist.AvgRow (Some "Pop") (Some (qc 70 1)); Artist.AvgRow (Some "Rock") None]
  = Artist.plot_data [artist_pop; artist_null]
    [Artist.AvgRow (Some "Pop") (Some (qc 1 1)); Artist.AvgRow (Some "Rock") (Some (qc 2 1))].
Proof.
  apply (plot_data_reads_no_average [artist_pop; artist_null]
           [Artist.AvgRow (Some "Pop") (Some (qc 70 1)); Artist.AvgRow (Some "Rock") None]
           [Artist.AvgRow (Some "Pop") (Some (qc 1 1)); Artist.AvgRow (Some "Rock") (Some (qc 2 1))]).
  reflexivity.
Defined.

(** X21: when no genre occurs twice in [genre_avg] (its query groups by
    genre), the chart has one pair of bars per row of the artist's frame, in
    the order of that frame, also for a genre that [genre_avg] does not
    list: [genre_avg] has no effect on the chart. *)
Theorem plot_data_is_artist_data (artist_data : list Artist.row)
    (genre_avg : list Artist.avg_row) :
  NoDup (map Artist.avg_Genre genre_avg) ->
  Artist.plot_data artist_data genre_avg
  = Artist.BarChart (map Artist.avg_popularity_artist artist_data)
                    (map Artist.avg_popularity_overall artist_data)
                    (map Artist.Genre artist_data).
Proof.
  intros Hnd. rewrite plot_data_rows, merge_left_rows.
  assert (flat_map (fun r =>
                replicate
                  (Nat.max 1 (length (filter (fun k => k = Artist.Genre r)
                                             (map Artist.avg_Genre genre_avg))))
                  r) artist_data = artist_data) as ->; [|done].
  induction artist_data as [|r data IH]; [done|].
  simpl. rewrite IH.
  assert (length (filter (fun k => k = Artist.Genre r)
                         (map Artist.avg_Genre genre_avg)) <= 1)%nat as Hle.
  { revert Hnd. generalize (map Artist.avg_Genre genre_avg). clear.
    intros ks. induction 1 as [|k ks Hk Hnd IH]; [simpl; lia|].
    rewrite filter_cons. destruct (decide (k = Artist.Genre r)) as [->|]; [|done].
    simpl. assert (filter (fun k => k = Artist.Genre r) ks = []) as ->; [|simpl; lia].
    apply elem_of_nil_inv. intros x [-> ?]%list_elem_of_filter. done. }
  replace (Nat.max 1 _) with 1%nat by lia. done.
Qed.

Lemma plot_data_is_artist_data_witness :
  Artist.plot_data [artist_pop; artist_null] [Artist.AvgRow (Some "Pop") (Some (qc 70 1))]
  = Artist.BarChart (map Artist.avg_popularity_artist [artist_pop; artist_null])
                    (map Artist.avg_popularity_overall [artist_pop; artist_null])
                    (map Artist.Genre [artist_pop; artist_null]).
Proof.
  apply (plot_data_is_artist_data [artist_pop; artist_null]
           [Artist.AvgRow (Some "Pop") (Some (qc 70 1))]).
  apply (bool_decide_unpack _). vm_compute. exact I.
Defined.

(** ** A frame with rows has a selection with rows *)

Lemma isin_some_true {A} `{EqDecision A} (names sel : list A) a :
  a ∈ names -> a ∈ sel ->
  (1 <= length (filter (fun b => b = true) (isin names sel)))%nat.
Proof.
  intros Ha Hsel. induction names as [|x names IH]; [by apply elem_of_nil in Ha|].
  rewrite isin_cons, filter_cons.
  apply elem_of_cons in Ha as [<- | Ha].
  - rewrite bool_decide_eq_true_2 by done. simpl. lia.
  - destruct (decide _); simpl; [lia | by apply IH].
Qed.

(** X22: the last assertion of [test_functions] follows from its first:
    when the frame has at least one row and [top_n] is at least 1, the
    frame that [get_top_artists] returns is not empty, whatever the sorting
    routine and also when names or rank values are null. *)
Theorem selection_not_empty argsort (w w' : world) (data r : loc) (top_n : Z) (n : nat) :
  sort_contract argsort ->
  1 <= top_n ->
  (1 <= n)%nat ->
  well_formed n (heap w data) ->
  get_top_artists argsort data top_n w = Ok (r, w') ->
  empty (heap w' r) = false.
Proof.
  intros Hs Hn Hrows Hwf Hrun.
  apply get_top_artists_inv in Hrun
    as (by_name & rank_value & values & Hname & Hrank & Hvalues & Hr & Hw').
  cbv zeta in Hr, Hw'. subst r w'. simpl. rewrite fn_lookup_insert.
  set (names := keys_of by_name).
  set (avg := transform_mean key_le names values).
  set (top := top_artist_names argsort names avg top_n).
  assert (length names = n) as Hlen.
  { unfold names. rewrite keys_of_length. by eapply well_formed_getitem. }
  destruct (top_artist_names_spec argsort names values top_n (Hs _) ltac:(lia))
    as (_ & _ & _ & Hin & Htop & _).
  fold avg in Hin, Htop. fold top in Hin, Htop.
  assert (exists a, a ∈ top) as [a Ha].
  { destruct top as [|a top']; [|exists a; by left].
    destruct names as [|x names']; [simpl in Hlen; lia|].
    assert (x ∈ drop_duplicates (x :: names')) as Hx
      by (apply drop_duplicates_elem; by left).
    destruct (drop_duplicates (x :: names')); [by apply elem_of_nil in Hx|].
    simpl in Htop. lia. }
  pose proof (isin_some_true names top a (Hin a Ha) Ha) as Hmask.
  set (df := setitem (heap w data) "avg_rank_value" (Float64Series avg)).
  assert (well_formed n df) as Hdf.
  { apply well_formed_setitem; [done|]. simpl. unfold avg.
    by rewrite transform_mean_length. }
  pose proof (well_formed_mask_frame n (isin names top) df
                ltac:(by rewrite isin_length) Hdf) as Hm.
  assert (getitem df "ArtistName" = Ok by_name) as Hcol
    by (unfold df; by rewrite getitem_setitem_ne).
  destruct df as [|[c s] df']; [done|].
  apply Forall_cons in Hm as [Hm _]. simpl in Hm.
  unfold empty, nrows. simpl. rewrite Hm. apply Nat.eqb_neq. lia.
Qed.

Lemma selection_not_empty_witness :
  exists r w',
    get_top_artists stable_argsort 0%nat 1 (world_of frame_AB_ranked) = Ok (r, w') /\
    empty (heap w' r) = false.
Proof.
  pose proof (get_top_artists_run stable_argsort 0%nat 1 (world_of frame_AB_ranked)
                _ _ _ eq_refl eq_refl eq_refl) as Hrun.
  eexists _, _. split; [exact Hrun|].
  eapply (selection_not_empty stable_argsort (world_of frame_AB_ranked) _ 0%nat _ 1 2);
    [| | | |exact Hrun].
  - apply insertion_argsort_sorts.
  - lia.
  - lia.
  - repeat constructor.
Defined.
